(** * Log File Analysis API: a shallow embedding of [logcode.py]

    The development models the three layers of the service:
    - the entry parser ([parse_log_line], [generate_log_id]);
    - the scanner ([read_logs]), a generator over the files of [LOG_DIR];
    - the endpoints ([get_logs], [get_log_stats], [get_log_by_id]).

    Python values are modelled as follows.  A [str] is the list of its
    Unicode code points.  A [datetime] is the record of its fields, naive
    or aware.  A [dict] of counters is a finite map.  An exception that
    leaves a function is the [Raise] outcome; the generator [read_logs]
    is the list of entries it yields together with the way it ends.

    The libraries the program imports ([dateutil.parser], [hashlib]) are
    interfaces, so every theorem holds for any implementation of them. *)

From stdpp Require Import base numbers option list gmap strings.

(** ** Python strings *)

Abbreviation pystr := (list N).

Module PyStr.

(** The code points of an ASCII literal. *)
Fixpoint py (s : string) : pystr :=
  match s with
  | EmptyString => []
  | String a r => Ascii.N_of_ascii a :: py r
  end.

Definition TAB : N := 0x09%N.
Definition LF : N := 0x0A%N.

(** [str.isspace] on one character: the code points [str.strip()]
    removes when it is called without an argument. *)
Definition isspace (c : N) : bool :=
  ((0x09 <=? c) && (c <=? 0x0D) || (0x1C <=? c) && (c <=? 0x20)
   || (c =? 0x85) || (c =? 0xA0) || (c =? 0x1680)
   || (0x2000 <=? c) && (c <=? 0x200A)
   || (c =? 0x2028) || (c =? 0x2029) || (c =? 0x202F)
   || (c =? 0x205F) || (c =? 0x3000))%N.

(** A run of whitespace. *)
Definition spaces (ws : pystr) : Prop := Forall (fun c => isspace c = true) ws.

Fixpoint lstrip (s : pystr) : pystr :=
  match s with
  | [] => []
  | c :: r => if isspace c then lstrip r else s
  end.

Definition rstrip (s : pystr) : pystr := reverse (lstrip (reverse s)).

(** [s.strip()] *)
Definition strip (s : pystr) : pystr := rstrip (lstrip s).

(** [s.split(sep)] for a one-character separator: never the empty list. *)
Fixpoint split (sep : N) (s : pystr) : list pystr :=
  match s with
  | [] => [[]]
  | c :: r =>
      if (c =? sep)%N then [] :: split sep r
      else match split sep r with
           | p :: ps => (c :: p) :: ps
           | [] => [[c]]
           end
  end.

(** [sep.join(parts)] *)
Fixpoint join (sep : N) (parts : list pystr) : pystr :=
  match parts with
  | [] => []
  | [p] => p
  | p :: ps => p ++ sep :: join sep ps
  end.

(** [s.count(c)] for a one-character [c]. *)
Definition occurrences (c : N) (s : pystr) : nat :=
  length (filter (fun x => x = c) s).

(** [s.endswith(suffix)] *)
Definition endswith (s suffix : pystr) : bool :=
  bool_decide (drop (length s - length suffix) s = suffix).

(** Truth value of an [Optional[str]]: [None] and [""] are false. *)
Definition truthy (s : option pystr) : bool :=
  match s with
  | None | Some [] => false
  | Some (_ :: _) => true
  end.

Arguments py : simpl never.
Arguments endswith : simpl never.

End PyStr.

Import PyStr.

(** ** [str.encode()]: UTF-8 *)

Module Utf8.

(** The bytes of one code point; [None] is [UnicodeEncodeError] (a lone
    surrogate).  Values from 0x110000 on are not code points. *)
Definition encode_char (c : N) : option (list N) :=
  (if c <? 0x80 then Some [c]
   else if c <? 0x800 then Some [0xC0 + c / 0x40; 0x80 + c mod 0x40]
   else if c <? 0x10000 then
     if (0xD800 <=? c) && (c <=? 0xDFFF) then None
     else Some [0xE0 + c / 0x1000; 0x80 + (c / 0x40) mod 0x40; 0x80 + c mod 0x40]
   else if c <? 0x110000 then
     Some [0xF0 + c / 0x40000; 0x80 + (c / 0x1000) mod 0x40;
           0x80 + (c / 0x40) mod 0x40; 0x80 + c mod 0x40]
   else None)%N.

Fixpoint encode (s : pystr) : option (list N) :=
  match s with
  | [] => Some []
  | c :: r => b ← encode_char c; bs ← encode r; Some (b ++ bs)
  end.

End Utf8.

(** ** [datetime.datetime] *)

Module DateTime.

(** [utcoffset] is [None] for a naive value, and the offset from UTC in
    seconds for an aware one. *)
Record datetime := {
  year : Z; month : Z; day : Z;
  hour : Z; minute : Z; second : Z; microsecond : Z;
  utcoffset : option Z
}.

Definition is_leap (y : Z) : bool :=
  ((y mod 4 =? 0) && (negb (y mod 100 =? 0) || (y mod 400 =? 0)))%Z.

Definition days_before_year (y : Z) : Z :=
  ((y - 1) * 365 + (y - 1) / 4 - (y - 1) / 100 + (y - 1) / 400)%Z.

Definition days_in_month (y m : Z) : Z :=
  (if (m =? 2) && is_leap y then 29
   else nth (Z.to_nat m) [0; 31; 28; 31; 30; 31; 30; 31; 31; 30; 31; 30; 31] 0)%Z.

Definition days_before_month (y m : Z) : Z :=
  (nth (Z.to_nat m) [0; 0; 31; 59; 90; 120; 151; 181; 212; 243; 273; 304; 334] 0
   + (if (2 <? m) && is_leap y then 1 else 0))%Z.

(** [datetime.toordinal()] *)
Definition toordinal (d : datetime) : Z :=
  (days_before_year (year d) + days_before_month (year d) (month d) + day d)%Z.

(** Microseconds of the wall clock since the start of day 0: on the
    field ranges of a [datetime] it orders naive values as the
    comparison of their field tuples does. *)
Definition to_micros (d : datetime) : Z :=
  ((((toordinal d * 24 + hour d) * 60 + minute d) * 60 + second d) * 1000000
   + microsecond d)%Z.

(** Ordering comparisons.  [None] is the [TypeError] Python raises when
    one operand is naive and the other aware. *)
Definition compare (a b : datetime) : option comparison :=
  match utcoffset a, utcoffset b with
  | None, None => Some (to_micros a ?= to_micros b)%Z
  | Some oa, Some ob =>
      Some (to_micros a - oa * 1000000 ?= to_micros b - ob * 1000000)%Z
  | _, _ => None
  end.

(** [a < b] *)
Definition lt (a b : datetime) : option bool :=
  match compare a b with
  | Some Lt => Some true
  | Some _ => Some false
  | None => None
  end.

(** [a > b] *)
Definition gt (a b : datetime) : option bool :=
  match compare a b with
  | Some Gt => Some true
  | Some _ => Some false
  | None => None
  end.

(** [n] written with [w] decimal digits, zero padded. *)
Fixpoint digits (w : nat) (n : Z) : pystr :=
  match w with
  | O => []
  | S w' => digits w' (n / 10) ++ [(0x30 + Z.to_N (n mod 10))%N]
  end.

Definition format_offset (o : Z) : pystr :=
  let a := Z.abs o in
  py (if (o <? 0)%Z then "-" else "+")
  ++ digits 2 (a / 3600) ++ py ":" ++ digits 2 ((a / 60) mod 60)
  ++ (if (a mod 60 =? 0)%Z then [] else py ":" ++ digits 2 (a mod 60)).

(** [datetime.isoformat()] *)
Definition isoformat (d : datetime) : pystr :=
  digits 4 (year d) ++ py "-" ++ digits 2 (month d) ++ py "-" ++ digits 2 (day d)
  ++ py "T"
  ++ digits 2 (hour d) ++ py ":" ++ digits 2 (minute d) ++ py ":" ++ digits 2 (second d)
  ++ (if (microsecond d =? 0)%Z then [] else py "." ++ digits 6 (microsecond d))
  ++ match utcoffset d with
     | None => []
     | Some o => format_offset o
     end.

End DateTime.

Export DateTime(datetime).

(** ** Exceptions and outcomes *)

(** The exceptions that can leave the functions of the program.
    [HTTPException 400 _] is the spec's [InvalidTimestamp] and
    [HTTPException 404 _] its [NotFound]. *)
Inductive pyexn :=
  | OSError
  | UnicodeDecodeError
  | TypeError
  | HTTPException (status_code : Z) (detail : string).

Inductive outcome (A : Type) :=
  | Return (a : A)
  | Raise (e : pyexn).
Arguments Return {A} a.
Arguments Raise {A} e.

Global Instance outcome_ret : MRet outcome := @Return.

Global Instance outcome_bind : MBind outcome := fun A B k m =>
  match m with
  | Return a => k a
  | Raise e => Raise e
  end.

Definition InvalidTimestamp : pyexn := HTTPException 400 "Invalid timestamp format".
Definition NotFound : pyexn := HTTPException 404 "Log entry not found".

(** ** The imported libraries *)

(** [dateutil.parser.parse]: [None] when it raises. *)
Class Dateutil := { parser_parse : pystr -> option datetime }.

(** [hashlib.sha1(data).hexdigest()] on the bytes [data]. *)
Class Hashlib := { sha1_hexdigest : list N -> pystr }.

(** ** Log entries *)

(** The dictionary [parse_log_line] builds. *)
Module LogEntry.
Record t := {
  id : pystr;
  timestamp : datetime;
  level : pystr;
  component : pystr;
  message : pystr
}.
End LogEntry.

(** The same dictionary once ["timestamp"] holds the ISO-8601 text. *)
Module LogView.
Record t := {
  id : pystr;
  timestamp : pystr;
  level : pystr;
  component : pystr;
  message : pystr
}.
End LogView.

(** [log["timestamp"] = log["timestamp"].isoformat()] *)
Definition isoformatted (log : LogEntry.t) : LogView.t :=
  {| LogView.id := LogEntry.id log;
     LogView.timestamp := DateTime.isoformat (LogEntry.timestamp log);
     LogView.level := LogEntry.level log;
     LogView.component := LogEntry.component log;
     LogView.message := LogEntry.message log |}.

(** ** Utility functions *)

Section Logcode.
Context `{Dateutil} `{Hashlib}.

(** [None] is the [UnicodeEncodeError] of [raw_line.encode()]. *)
Definition generate_log_id (raw_line : pystr) : option pystr :=
  sha1_hexdigest <$> Utf8.encode raw_line.

(** The [try] block turns every exception of [generate_log_id] and of
    [parser.parse] into [None]. *)
Definition parse_log_line (line : pystr) : option LogEntry.t :=
  match split TAB (strip line) with
  | [timestamp; level; component; message] =>
      i ← generate_log_id line;
      ts ← parser_parse timestamp;
      Some {| LogEntry.id := i;
              LogEntry.timestamp := ts;
              LogEntry.level := level;
              LogEntry.component := component;
              LogEntry.message := message |}
  | _ => None
  end.

(** *** The file system under [LOG_DIR] *)

(** A file as the scanner sees it: the lines that iterating over it
    yields, then the end of the file ([fault = None]) or an exception.
    A file that [open] refuses has no lines and a fault. *)
Record file := { lines : list pystr; fault : option pyexn }.

(** The state of the path [LOG_DIR]: absent, present but refused by
    [os.listdir], or a directory with its names in listing order. *)
Inductive directory :=
  | Missing
  | Unlistable
  | Listing (names : list (pystr * file)).

(** A run of the generator: the entries it yields, in order, and the
    exception that ends it, if any. *)
Definition scan : Type := list LogEntry.t * option pyexn.

(** The loop of [read_logs] over the listing: a name that does not end
    in [.log] is skipped without being opened; an exception of [open]
    or of a read leaves the generator at once. *)
Fixpoint read_files (names : list (pystr * file)) : scan :=
  match names with
  | [] => ([], None)
  | (name, f) :: rest =>
      if endswith name (py ".log") then
        match fault f with
        | Some e => (omap parse_log_line (lines f), Some e)
        | None =>
            let '(logs, fin) := read_files rest in
            (omap parse_log_line (lines f) ++ logs, fin)
        end
      else read_files rest
  end.

(** [read_logs()], for the state [d] of [LOG_DIR]. *)
Definition read_logs (d : directory) : scan :=
  match d with
  | Missing => ([], None)
  | Unlistable => ([], Some OSError)
  | Listing names => read_files names
  end.

(** ** Endpoints *)

Record LogsResponse := { count : nat; logs : list LogView.t }.

(** [parser.parse(t) if t else None]; the outer [None] is an exception
    of the parser. *)
Definition parse_bound (t : option pystr) : option (option datetime) :=
  if truthy t then
    match t with
    | Some s => Some <$> parser_parse s
    | None => Some None
    end
  else Some None.

(** [flt and value != flt] *)
Definition differs (flt : option pystr) (value : pystr) : bool :=
  truthy flt && bool_decide (Some value ≠ flt).

(** [start_dt and ts < start_dt]: a [datetime] is always true. *)
Definition before (start_dt : option datetime) (ts : datetime) : outcome bool :=
  match start_dt with
  | None => Return false
  | Some b =>
      match DateTime.lt ts b with
      | Some r => Return r
      | None => Raise TypeError
      end
  end.

(** [end_dt and ts > end_dt] *)
Definition after (end_dt : option datetime) (ts : datetime) : outcome bool :=
  match end_dt with
  | None => Return false
  | Some b =>
      match DateTime.gt ts b with
      | Some r => Return r
      | None => Raise TypeError
      end
  end.

(** The body of the loop of [get_logs] over the entries yielded. *)
Fixpoint filter_logs (level component : option pystr)
    (start_dt end_dt : option datetime) (yielded : list LogEntry.t)
    : outcome (list LogView.t) :=
  match yielded with
  | [] => Return []
  | log :: rest =>
      if differs level (LogEntry.level log) then
        filter_logs level component start_dt end_dt rest
      else if differs component (LogEntry.component log) then
        filter_logs level component start_dt end_dt rest
      else
        early ← before start_dt (LogEntry.timestamp log);
        if (early : bool) then filter_logs level component start_dt end_dt rest
        else
          late ← after end_dt (LogEntry.timestamp log);
          if (late : bool) then filter_logs level component start_dt end_dt rest
          else
            kept ← filter_logs level component start_dt end_dt rest;
            Return (isoformatted log :: kept)
  end.

(** [GET /logs] *)
Definition get_logs (level component start_time end_time : option pystr)
    (d : directory) : outcome LogsResponse :=
  match parse_bound start_time with
  | None => Raise InvalidTimestamp
  | Some start_dt =>
      match parse_bound end_time with
      | None => Raise InvalidTimestamp
      | Some end_dt =>
          let '(yielded, fin) := read_logs d in
          kept ← filter_logs level component start_dt end_dt yielded;
          match fin with
          | Some e => Raise e
          | None => Return {| count := length kept; logs := kept |}
          end
      end
  end.

(** The three accumulators of [get_log_stats]. *)
Record Counters := {
  total : nat;
  level_counts : gmap pystr nat;
  component_counts : gmap pystr nat
}.

(** [counts[key] = counts.get(key, 0) + 1] *)
Definition bump (key : pystr) (counts : gmap pystr nat) : gmap pystr nat :=
  <[key := default 0 (counts !! key) + 1]> counts.

(** The body of the loop of [get_log_stats]. *)
Definition count_log (st : Counters) (log : LogEntry.t) : Counters :=
  {| total := total st + 1;
     level_counts := bump (LogEntry.level log) (level_counts st);
     component_counts := bump (LogEntry.component log) (component_counts st) |}.

Definition count_logs (yielded : list LogEntry.t) : Counters :=
  foldl count_log {| total := 0; level_counts := ∅; component_counts := ∅ |} yielded.

Record StatsResponse := {
  total_logs : nat;
  by_level : gmap pystr nat;
  by_component : gmap pystr nat
}.

(** [GET /logs/stats] *)
Definition get_log_stats (d : directory) : outcome StatsResponse :=
  let '(yielded, fin) := read_logs d in
  let st := count_logs yielded in
  match fin with
  | Some e => Raise e
  | None =>
      Return {| total_logs := total st;
                by_level := level_counts st;
                by_component := component_counts st |}
  end.

(** The first entry yielded whose ["id"] is [log_id]. *)
Fixpoint first_with_id (log_id : pystr) (yielded : list LogEntry.t)
    : option LogEntry.t :=
  match yielded with
  | [] => None
  | log :: rest =>
      if bool_decide (LogEntry.id log = log_id) then Some log
      else first_with_id log_id rest
  end.

(** [GET /logs/{log_id}] *)
Definition get_log_by_id (log_id : pystr) (d : directory) : outcome LogView.t :=
  let '(yielded, fin) := read_logs d in
  match first_with_id log_id yielded with
  | Some log => Return (isoformatted log)
  | None =>
      match fin with
      | Some e => Raise e
      | None => Raise NotFound
      end
  end.

End Logcode.

(** ** Reference implementations of the imported libraries

    They let the model run on concrete inputs.  [Sha1] is the hash
    function itself.  [Iso8601] accepts the timestamps of the form
    [YYYY-MM-DDTHH:MM:SS], optionally followed by [Z], on which it
    returns the value [dateutil] returns, and nothing else; like
    [dateutil] it rejects the empty string. *)

Module Sha1.
Local Open Scope Z_scope.

Definition w32 (x : Z) : Z := x mod 2 ^ 32.

Definition rotl (n x : Z) : Z :=
  w32 (Z.lor (Z.shiftl x n) (Z.shiftr x (32 - n))).

(** Big-endian bytes of [x], and back. *)
Fixpoint be_bytes (n : nat) (x : Z) : list Z :=
  match n with
  | O => []
  | S n' => be_bytes n' (x / 256) ++ [x mod 256]
  end.

Definition be_word (bs : list Z) : Z := foldl (fun acc b => acc * 256 + b) 0 bs.

Definition pad (msg : list Z) : list Z :=
  let l := Z.of_nat (length msg) in
  msg ++ [0x80] ++ replicate (Z.to_nat ((55 - l) mod 64)) 0 ++ be_bytes 8 (8 * l).

Fixpoint words (n : nat) (block : list Z) : list Z :=
  match n with
  | O => []
  | S n' => be_word (take 4 block) :: words n' (drop 4 block)
  end.

Definition f (t b c d : Z) : Z :=
  if t <? 20 then Z.lor (Z.land b c) (Z.land (Z.lxor b 0xFFFFFFFF) d)
  else if t <? 40 then Z.lxor (Z.lxor b c) d
  else if t <? 60 then Z.lor (Z.lor (Z.land b c) (Z.land b d)) (Z.land c d)
  else Z.lxor (Z.lxor b c) d.

Definition K (t : Z) : Z :=
  if t <? 20 then 0x5A827999
  else if t <? 40 then 0x6ED9EBA1
  else if t <? 60 then 0x8F1BBCDC
  else 0xCA62C1D6.

Definition state : Type := Z * Z * Z * Z * Z.

(** [window] holds the sixteen schedule words from [W t] on. *)
Fixpoint rounds (n : nat) (t : Z) (window : list Z) (s : state) : state :=
  match n with
  | O => s
  | S n' =>
      let '(a, b, c, d, e) := s in
      let w := nth 0 window 0 in
      let next :=
        rotl 1 (Z.lxor (Z.lxor (nth 13 window 0) (nth 8 window 0))
                       (Z.lxor (nth 2 window 0) w)) in
      let temp := w32 (rotl 5 a + f t b c d + e + K t + w) in
      rounds n' (t + 1) (drop 1 window ++ [next]) (temp, a, rotl 30 b, c, d)
  end.

Definition compress (s : state) (block : list Z) : state :=
  let '(h0, h1, h2, h3, h4) := s in
  let '(a, b, c, d, e) := rounds 80 0 (words 16 block) s in
  (w32 (h0 + a), w32 (h1 + b), w32 (h2 + c), w32 (h3 + d), w32 (h4 + e)).

Fixpoint blocks (n : nat) (s : state) (data : list Z) : state :=
  match n with
  | O => s
  | S n' => blocks n' (compress s (take 64 data)) (drop 64 data)
  end.

Definition digest (msg : list Z) : list Z :=
  let data := pad msg in
  let '(h0, h1, h2, h3, h4) :=
    blocks (length data / 64)
      (0x67452301, 0xEFCDAB89, 0x98BADCFE, 0x10325476, 0xC3D2E1F0) data in
  be_bytes 4 h0 ++ be_bytes 4 h1 ++ be_bytes 4 h2 ++ be_bytes 4 h3 ++ be_bytes 4 h4.

Definition hex_digit (n : Z) : N := Z.to_N (if n <? 10 then 0x30 + n else 0x57 + n).

Definition hexdigest (msg : list N) : pystr :=
  flat_map (fun b => [hex_digit (b / 16); hex_digit (b mod 16)])
           (digest (Z.of_N <$> msg)).

Definition hashlib : Hashlib := {| sha1_hexdigest := hexdigest |}.
End Sha1.

Module Iso8601.

Definition digit (c : N) : option Z :=
  if ((0x30 <=? c) && (c <=? 0x39))%N then Some (Z.of_N c - 0x30)%Z else None.

(** The two-digit number at position [i]. *)
Definition num2 (s : pystr) (i : nat) : option Z :=
  a ← s !! i; b ← s !! S i; x ← digit a; y ← digit b; Some (10 * x + y)%Z.

Definition separators (s : pystr) : bool :=
  bool_decide (s !! 4%nat = Some 0x2D%N) && bool_decide (s !! 7%nat = Some 0x2D%N)
  && bool_decide (s !! 10%nat = Some 0x54%N)
  && bool_decide (s !! 13%nat = Some 0x3A%N) && bool_decide (s !! 16%nat = Some 0x3A%N).

Definition zone (rest : pystr) : option (option Z) :=
  if bool_decide (rest = []) then Some None
  else if bool_decide (rest = [0x5A%N]) then Some (Some 0%Z)
  else None.

Definition in_range (y mo d h mi se : Z) : bool :=
  ((1 <=? y) && (1 <=? mo) && (mo <=? 12) && (1 <=? d)
   && (d <=? DateTime.days_in_month y mo)
   && (h <? 24) && (mi <? 60) && (se <? 60))%Z.

Definition parse (s : pystr) : option datetime :=
  yh ← num2 s 0; yl ← num2 s 2; mo ← num2 s 5; d ← num2 s 8;
  h ← num2 s 11; mi ← num2 s 14; se ← num2 s 17;
  tz ← zone (drop 19 s);
  if separators s && in_range (100 * yh + yl) mo d h mi se then
    Some {| DateTime.year := 100 * yh + yl; DateTime.month := mo; DateTime.day := d;
            DateTime.hour := h; DateTime.minute := mi; DateTime.second := se;
            DateTime.microsecond := 0; DateTime.utcoffset := tz |}
  else None.

Definition dateutil : Dateutil := {| parser_parse := parse |}.
End Iso8601.

(** ** Specification vocabulary *)

Section Policy.
Context `{Dateutil} `{Hashlib}.

(** [ts >= bound], when there is a bound and Python can compare. *)
Definition not_before (bound : option datetime) (ts : datetime) : bool :=
  match bound with
  | None => true
  | Some b =>
      match DateTime.compare ts b with
      | Some Lt | None => false
      | Some _ => true
      end
  end.

(** [ts <= bound], when there is a bound and Python can compare. *)
Definition not_after (bound : option datetime) (ts : datetime) : bool :=
  match bound with
  | None => true
  | Some b =>
      match DateTime.compare ts b with
      | Some Gt | None => false
      | Some _ => true
      end
  end.

(** Whether Python can order [ts] against the bound: both naive or
    both aware. *)
Definition comparable (bound : option datetime) (ts : datetime) : bool :=
  match bound with
  | None => true
  | Some b => bool_decide (is_Some (DateTime.compare ts b))
  end.

(** The filtering policy in the words of the spec: a filter is absent
    when it is [None]. *)
Definition spec_selects (flt : option pystr) (value : pystr) : bool :=
  match flt with
  | None => true
  | Some f => bool_decide (value = f)
  end.

Definition spec_included (level component : option pystr)
    (startTime endTime : option datetime) (log : LogEntry.t) : bool :=
  spec_selects level (LogEntry.level log)
  && spec_selects component (LogEntry.component log)
  && not_before startTime (LogEntry.timestamp log)
  && not_after endTime (LogEntry.timestamp log).

(** The policy of the code: a filter is absent when it is [None] or
    the empty string. *)
Definition selects (flt : option pystr) (value : pystr) : bool :=
  negb (truthy flt) || bool_decide (flt = Some value).

Definition included (level component : option pystr)
    (start_dt end_dt : option datetime) (log : LogEntry.t) : bool :=
  selects level (LogEntry.level log)
  && selects component (LogEntry.component log)
  && not_before start_dt (LogEntry.timestamp log)
  && not_after end_dt (LogEntry.timestamp log).

(** An [Optional[str]] with the empty string read as absent. *)
Definition without_empty (t : option pystr) : option pystr :=
  match t with
  | Some [] => None
  | _ => t
  end.

(** Every entry the lines of the [.log] files parse to, in listing
    order and line order. *)
Definition parsed_entries (d : directory) : list LogEntry.t :=
  match d with
  | Listing names =>
      flat_map (fun nf : pystr * file =>
                  if endswith nf.1 (py ".log")
                  then omap parse_log_line (lines nf.2) else [])
               names
  | _ => []
  end.

(** The counter a dictionary holds for [key] once every entry of
    [entries] is counted by [field]: none for a key that never occurs. *)
Definition counted (field : LogEntry.t -> pystr) (key : pystr)
    (entries : list LogEntry.t) : option nat :=
  match length (filter (fun log => field log = key) entries) with
  | O => None
  | S n => Some (S n)
  end.

(** [sum(counts.values())] *)
Definition sum_values (counts : gmap pystr nat) : nat :=
  map_fold (fun _ v acc => v + acc) 0 counts.

End Policy.

(** ** Vocabulary of the further properties *)

Section Outcomes.
Context `{Dateutil} `{Hashlib}.

(** A name of the listing that the scanner opens. *)
Definition is_log (nf : pystr * file) : bool := endswith nf.1 (py ".log").

(** An entry on which the loop of [get_logs] raises [TypeError]: it
    passes the level and component filters, and Python cannot order its
    timestamp against the start bound, or it is not before the start
    bound and cannot be ordered against the end bound. *)
Definition unordered (level component : option pystr)
    (start_dt end_dt : option datetime) (log : LogEntry.t) : bool :=
  selects level (LogEntry.level log)
  && selects component (LogEntry.component log)
  && (negb (comparable start_dt (LogEntry.timestamp log))
      || not_before start_dt (LogEntry.timestamp log)
         && negb (comparable end_dt (LogEntry.timestamp log))).

(** A state of [LOG_DIR] with nothing to scan: no directory, or no name
    ending in [.log]. *)
Definition nothing_to_scan (d : directory) : Prop :=
  match d with
  | Missing => True
  | Unlistable => False
  | Listing names => Forall (fun nf => is_log nf = false) names
  end.

End Outcomes.

(** ** Sample data *)

Module Samples.

Definition line_error : pystr :=
  join TAB [py "2024-01-01T10:00:00"; py "ERROR"; py "auth"; py "login failed"] ++ [LF].

Definition line_info : pystr :=
  join TAB [py "2024-01-02T08:30:00"; py "INFO"; py "db"; py "connected"] ++ [LF].

Definition line_bad : pystr := join TAB [py "bad"; py "line"] ++ [LF].

(** [line_error] with a tab before the end of the line. *)
Definition line_trailing_tab : pystr :=
  join TAB [py "2024-01-01T10:00:00"; py "ERROR"; py "auth"; py "login failed"; []] ++ [LF].

(** [line_error] with two spaces after the message. *)
Definition line_padded : pystr :=
  join TAB [py "2024-01-01T10:00:00"; py "ERROR"; py "auth"; py "login failed  "] ++ [LF].

Definition at_10 : datetime :=
  {| DateTime.year := 2024; DateTime.month := 1; DateTime.day := 1;
     DateTime.hour := 10; DateTime.minute := 0; DateTime.second := 0;
     DateTime.microsecond := 0; DateTime.utcoffset := None |}.

Definition entry (i : string) (ts : datetime) (lv co msg : string) : LogEntry.t :=
  {| LogEntry.id := py i; LogEntry.timestamp := ts; LogEntry.level := py lv;
     LogEntry.component := py co; LogEntry.message := py msg |}.

Definition entry_error : LogEntry.t :=
  entry "2513e0572f3c8930d9d44dd4e95e81c8f20e2025" at_10 "ERROR" "auth" "login failed".

Definition entry_padded : LogEntry.t :=
  entry "f446631c3a0aba5ff87b831c90ad87ba75d3884c" at_10 "ERROR" "auth" "login failed".

Definition entry_trailing_tab : LogEntry.t :=
  entry "50b24d3adacc28c5fb8f064e19fce97718e81557" at_10 "ERROR" "auth" "login failed".

Definition entry_info : LogEntry.t :=
  entry "6343dcfac342d6bd367833eb1bf86180e4ba93b1"
    {| DateTime.year := 2024; DateTime.month := 1; DateTime.day := 2;
       DateTime.hour := 8; DateTime.minute := 30; DateTime.second := 0;
       DateTime.microsecond := 0; DateTime.utcoffset := None |}
    "INFO" "db" "connected".

Definition view_info : LogView.t :=
  {| LogView.id := py "6343dcfac342d6bd367833eb1bf86180e4ba93b1";
     LogView.timestamp := py "2024-01-02T08:30:00";
     LogView.level := py "INFO"; LogView.component := py "db";
     LogView.message := py "connected" |}.

Definition view_error : LogView.t :=
  {| LogView.id := py "2513e0572f3c8930d9d44dd4e95e81c8f20e2025";
     LogView.timestamp := py "2024-01-01T10:00:00";
     LogView.level := py "ERROR"; LogView.component := py "auth";
     LogView.message := py "login failed" |}.

Definition a_log : file := {| lines := [line_error; line_bad]; fault := None |}.
Definition b_log : file := {| lines := [line_info]; fault := None |}.
Definition locked_log : file := {| lines := []; fault := Some OSError |}.

(** The example of the spec: one file with a good and a malformed line. *)
Definition dir_a : directory := Listing [(py "a.log", a_log)].

Definition dir_ab : directory :=
  Listing [(py "a.log", a_log); (py "notes.txt", locked_log); (py "b.log", b_log)].

Definition dir_ba : directory :=
  Listing [(py "b.log", b_log); (py "a.log", a_log)].

(** An unreadable file listed before a readable one. *)
Definition dir_locked : directory :=
  Listing [(py "locked.log", locked_log); (py "b.log", b_log)].

End Samples.

(** Further sample data. *)
Module MoreSamples.
Import Samples.

(** [line_error] as a Windows editor saves it, after two spaces. *)
Definition line_crlf : pystr := py "  " ++ line_error ++ py " " ++ [0x0D%N; LF].

(** Four fields, the last one blank. *)
Definition line_blank_message : pystr :=
  join TAB [py "2024-01-01T10:00:00"; py "ERROR"; py "auth"; py "  "] ++ [LF].

(** An aware timestamp. *)
Definition line_utc : pystr :=
  join TAB [py "2024-01-01T09:00:00Z"; py "WARN"; py "auth"; py "token expired"] ++ [LF].

Definition a_log_noisy : file :=
  {| lines := [line_bad; line_error; line_bad]; fault := None |}.

Definition utc_log : file := {| lines := [line_utc]; fault := None |}.

(** No name ends in [.log]; one of the files cannot even be opened. *)
Definition dir_no_logs : directory :=
  Listing [(py "notes.txt", locked_log); (py "a.log.bak", a_log)].

(** Half of [a.log] was read when the read failed. *)
Definition dir_torn : directory :=
  Listing [(py "a.log", {| lines := [line_error]; fault := Some UnicodeDecodeError |});
           (py "b.log", b_log)].

Definition dir_mixed : directory :=
  Listing [(py "a.log", a_log); (py "utc.log", utc_log)].

End MoreSamples.

(** * Properties *)

(** ** Strings *)

Module PyStrFacts.

Lemma split_nonempty sep s : split sep s <> [].
Proof. destruct s as [|c r]; simpl; [done|]. case (c =? sep)%N; [done|]. by destruct (split sep r). Qed.

Lemma split_no_sep sep p : sep ∉ p -> split sep p = [p].
Proof.
  induction p as [|c p IH]; simpl; [done|].
  intros Hn. apply not_elem_of_cons in Hn as [Hc Hp].
  destruct (N.eqb_spec c sep) as [->|_]; [done|]. by rewrite IH.
Qed.

Lemma split_app_sep sep p r : sep ∉ p -> split sep (p ++ sep :: r) = p :: split sep r.
Proof.
  induction p as [|c p IH]; simpl.
  - by rewrite N.eqb_refl.
  - intros Hn. apply not_elem_of_cons in Hn as [Hc Hp].
    destruct (N.eqb_spec c sep) as [->|_]; [done|]. by rewrite IH.
Qed.

(** [split] inverts [join] on separator-free parts. *)
Lemma split_join sep parts :
  parts <> [] -> Forall (fun p => sep ∉ p) parts -> split sep (join sep parts) = parts.
Proof.
  induction parts as [|p ps IH]; [done|]. intros _ Hall.
  apply Forall_cons in Hall as [Hp Hps].
  destruct ps as [|q ps]; [by apply split_no_sep|].
  change (join sep (p :: q :: ps)) with (p ++ sep :: join sep (q :: ps)).
  rewrite split_app_sep by done. by rewrite IH.
Qed.

Lemma join_split sep s : join sep (split sep s) = s.
Proof.
  induction s as [|c r IH]; simpl; [done|].
  destruct (N.eqb_spec c sep) as [->|_].
  - pose proof (split_nonempty sep r). destruct (split sep r); [done|].
    simpl in *. by rewrite IH.
  - pose proof (split_nonempty sep r). destruct (split sep r) as [|p ps]; [done|].
    destruct ps; simpl in *; by rewrite <- IH.
Qed.

Lemma split_parts_no_sep sep s : Forall (fun p => sep ∉ p) (split sep s).
Proof.
  induction s as [|c r IH]; simpl.
  - repeat constructor. apply not_elem_of_nil.
  - destruct (N.eqb_spec c sep) as [->|Hne].
    + constructor; [apply not_elem_of_nil | done].
    + destruct (split sep r) as [|p ps].
      { constructor; [|constructor]. apply not_elem_of_cons.
        split; [congruence | apply not_elem_of_nil]. }
      apply Forall_cons in IH as [Hp Hps]. constructor; [|done].
      apply not_elem_of_cons. split; [congruence | done].
Qed.

(** One part more than there are separators. *)
Lemma length_split sep s : length (split sep s) = S (occurrences sep s).
Proof.
  unfold occurrences. induction s as [|c r IH]; simpl; [done|].
  rewrite filter_cons. destruct (N.eqb_spec c sep) as [->|Hne].
  - rewrite decide_True by done. simpl. by rewrite IH.
  - rewrite decide_False by congruence.
    pose proof (split_nonempty sep r). destruct (split sep r); [done|]. by rewrite <- IH.
Qed.

Lemma occurrences_app sep s t : occurrences sep (s ++ t) = occurrences sep s + occurrences sep t.
Proof. unfold occurrences. by rewrite filter_app, length_app. Qed.

Lemma occurrences_0 sep s : occurrences sep s = 0 -> sep ∉ s.
Proof.
  unfold occurrences. intros Hl Hin.
  assert (sep ∈ filter (fun c => c = sep) s) as Hf by (by apply list_elem_of_filter).
  apply length_zero_iff_nil in Hl. rewrite Hl in Hf. by apply not_elem_of_nil in Hf.
Qed.

(** *** Stripping *)

Lemma lstrip_spec s : exists ws, s = ws ++ lstrip s /\ spaces ws.
Proof.
  induction s as [|c r [ws [Heq Hws]]]; simpl.
  - exists []. split; [done | constructor].
  - destruct (isspace c) eqn:Hc.
    + exists (c :: ws). split; [simpl; congruence | by constructor].
    + exists []. split; [done | constructor].
Qed.

Lemma lstrip_head s c r : lstrip s = c :: r -> isspace c = false.
Proof.
  induction s as [|a s IH]; simpl; [done|].
  destruct (isspace a) eqn:Ha; [done|]. by intros [= <- _].
Qed.

Lemma lstrip_spaces_app ws s : spaces ws -> lstrip (ws ++ s) = lstrip s.
Proof. induction 1 as [|c ws Hc _ IH]; simpl; [done|]. by rewrite Hc. Qed.

Lemma lstrip_id c s : isspace c = false -> lstrip (c :: s) = c :: s.
Proof. simpl. by intros ->. Qed.

Lemma spaces_reverse ws : spaces ws -> spaces (reverse ws).
Proof. unfold spaces. by rewrite Forall_reverse. Qed.

Lemma rstrip_spec s : exists ws, s = rstrip s ++ ws /\ spaces ws.
Proof.
  destruct (lstrip_spec (reverse s)) as [ws [Heq Hws]].
  exists (reverse ws). split; [|by apply spaces_reverse].
  unfold rstrip. rewrite <- reverse_app, <- Heq. by rewrite reverse_involutive.
Qed.

Lemma rstrip_last s r c : rstrip s = r ++ [c] -> isspace c = false.
Proof.
  unfold rstrip. intros Heq. apply (f_equal reverse) in Heq.
  rewrite reverse_involutive, reverse_app in Heq. simpl in Heq.
  by apply lstrip_head in Heq.
Qed.

Lemma rstrip_app_spaces s ws : spaces ws -> rstrip (s ++ ws) = rstrip s.
Proof.
  intros Hws. unfold rstrip. rewrite reverse_app.
  by rewrite lstrip_spaces_app by (by apply spaces_reverse).
Qed.

Lemma rstrip_id s c : isspace c = false -> rstrip (s ++ [c]) = s ++ [c].
Proof.
  intros Hc. unfold rstrip. rewrite reverse_app.
  change (reverse [c] ++ reverse s) with (c :: reverse s).
  rewrite lstrip_id by done. by rewrite reverse_cons, reverse_involutive.
Qed.

Lemma strip_spec s :
  exists ws1 ws2, s = ws1 ++ strip s ++ ws2 /\ spaces ws1 /\ spaces ws2.
Proof.
  destruct (lstrip_spec s) as [ws1 [H1 Hws1]].
  destruct (rstrip_spec (lstrip s)) as [ws2 [H2 Hws2]].
  exists ws1, ws2. unfold strip. split; [|done]. by rewrite <- H2.
Qed.

Lemma strip_last s r c : strip s = r ++ [c] -> isspace c = false.
Proof. apply rstrip_last. Qed.

End PyStrFacts.

(** ** UTF-8 *)

Module Utf8Facts.
Import Utf8.

Local Ltac Zify.zify_post_hook ::= Z.to_euclidean_division_equations.
Local Arguments encode_char : simpl never.

Local Ltac ranges H :=
  repeat match type of H with
         | context [(?a <? ?b)%N] => destruct (N.ltb_spec a b)
         | context [(?a <=? ?b)%N] => destruct (N.leb_spec a b)
         end;
  cbn [andb] in H; try discriminate H.

Lemma encode_char_nonempty c : encode_char c <> Some [].
Proof. unfold encode_char. intros Hc. ranges Hc. Qed.

(** The encoding is a prefix code: the first code point of a string can
    be read back from its bytes. *)
Lemma encode_char_prefix c c' bs bs' r r' :
  encode_char c = Some bs -> encode_char c' = Some bs' ->
  bs ++ r = bs' ++ r' -> c = c' /\ r = r'.
Proof.
  unfold encode_char. intros Hc Hc' Heq.
  ranges Hc; injection Hc as <-; ranges Hc'; injection Hc' as <-;
    cbn [app] in Heq; injection Heq as ?; intros;
    first [ split; [lia | congruence] | exfalso; lia ].
Qed.

Lemma encode_injective s s' data :
  encode s = Some data -> encode s' = Some data -> s = s'.
Proof.
  revert s' data. induction s as [|c s IH]; intros [|c' s'] data; simpl.
  - done.
  - intros [= <-]. destruct (encode_char c') as [b|] eqn:Hb; simpl; [|done].
    destruct (encode s'); simpl; [|done]. intros [= Hnil].
    apply app_eq_nil in Hnil as [-> _].
    by apply encode_char_nonempty in Hb.
  - destruct (encode_char c) as [b|] eqn:Hb; simpl; [|done].
    destruct (encode s); simpl; [|done]. intros [= <-] [= Hnil].
    symmetry in Hnil. apply app_eq_nil in Hnil as [-> _].
    by apply encode_char_nonempty in Hb.
  - destruct (encode_char c) as [b|] eqn:Hb; simpl; [|done].
    destruct (encode s) as [bs|] eqn:Hs; simpl; [|done].
    destruct (encode_char c') as [b'|] eqn:Hb'; simpl; [|done].
    destruct (encode s') as [bs'|] eqn:Hs'; simpl; [|done].
    intros [= <-] [= Heq].
    destruct (encode_char_prefix c' c b' b bs' bs Hb' Hb Heq) as [-> ->].
    f_equal. by eapply IH.
Qed.

End Utf8Facts.

(** ** The entry parser *)

Section ParserFacts.
Context `{Dateutil} `{Hashlib}.
Import PyStrFacts.

(** What a successful parse says about the line. *)
Lemma parse_log_line_Some line log :
  parse_log_line line = Some log ->
  exists text data,
    split TAB (strip line)
      = [text; LogEntry.level log; LogEntry.component log; LogEntry.message log]
    /\ Utf8.encode line = Some data
    /\ LogEntry.id log = sha1_hexdigest data
    /\ parser_parse text = Some (LogEntry.timestamp log).
Proof.
  unfold parse_log_line, generate_log_id. intros Hp.
  destruct (split TAB (strip line)) as [|text [|lv [|co [|msg [|? ?]]]]]; try done.
  destruct (Utf8.encode line) as [data|]; simpl in Hp; [|done].
  destruct (parser_parse text) as [ts|] eqn:Hts; simpl in Hp; [|done].
  injection Hp as <-. by exists text, data.
Qed.

(** Tab-free margins around a string join its first and last parts. *)
Lemma split_margins ws1 ws2 s g1 g2 g3 g4 :
  TAB ∉ ws1 -> TAB ∉ ws2 -> split TAB s = [g1; g2; g3; g4] ->
  split TAB (ws1 ++ s ++ ws2) = [ws1 ++ g1; g2; g3; g4 ++ ws2].
Proof.
  intros H1 H2 Hs.
  pose proof (split_parts_no_sep TAB s) as Hall. rewrite Hs in Hall.
  apply Forall_cons in Hall as [Hg1 Hall]. apply Forall_cons in Hall as [Hg2 Hall].
  apply Forall_cons in Hall as [Hg3 Hall]. apply Forall_cons in Hall as [Hg4 _].
  rewrite <- (join_split TAB s), Hs.
  rewrite <- (split_join TAB [ws1 ++ g1; g2; g3; g4 ++ ws2]).
  - f_equal. simpl. by repeat (rewrite <- app_assoc || rewrite <- app_comm_cons).
  - done.
  - repeat constructor; try done; rewrite elem_of_app; tauto.
Qed.

End ParserFacts.

Section ParserTheorems.
Context `{Dateutil} `{Hashlib}.
Import PyStrFacts.

(** C2 (amended): a line whose whitespace-stripped form does not split
    on the tab character into exactly 4 parts is rejected:
    [parse_log_line] returns [None], and raises nothing. *)
Theorem parse_log_line_field_count line :
  length (split TAB (strip line)) <> 4 -> parse_log_line line = None.
Proof.
  unfold parse_log_line. intros Hlen.
  by destruct (split TAB (strip line)) as [|? [|? [|? [|? [|? ?]]]]].
Qed.

(** C3: the id of a parsed entry is the hexadecimal SHA-1 digest of the
    UTF-8 bytes of the raw line, not of the stripped one; so the same
    line always gets the same id, and two different lines get different
    ids unless the hash collides on their bytes. *)
Theorem parse_log_line_id line line' log log' :
  parse_log_line line = Some log ->
  parse_log_line line' = Some log' ->
  (exists data, Utf8.encode line = Some data /\ LogEntry.id log = sha1_hexdigest data)
  /\ (line = line' -> LogEntry.id log = LogEntry.id log')
  /\ (line <> line' ->
      (forall data data',
         Utf8.encode line = Some data -> Utf8.encode line' = Some data' ->
         sha1_hexdigest data = sha1_hexdigest data' -> data = data') ->
      LogEntry.id log <> LogEntry.id log').
Proof.
  intros Hp Hp'.
  destruct (parse_log_line_Some _ _ Hp) as (text & data & _ & Hd & Hid & _).
  destruct (parse_log_line_Some _ _ Hp') as (text' & data' & _ & Hd' & Hid' & _).
  split; [by exists data|]. split.
  - intros <-. congruence.
  - intros Hne Hfree Heq. apply Hne.
    rewrite Hid, Hid' in Heq. pose proof (Hfree _ _ Hd Hd' Heq) as <-.
    by eapply Utf8Facts.encode_injective.
Qed.

(** C8 (amended): for a line of 4 tab-separated fields that parses, the
    level and the component of the entry are the second and the third
    field verbatim, and its message is the fourth field without its
    trailing whitespace. *)
Theorem parse_log_line_fields line f1 f2 f3 f4 log :
  split TAB line = [f1; f2; f3; f4] ->
  parse_log_line line = Some log ->
  LogEntry.level log = f2 /\ LogEntry.component log = f3
  /\ LogEntry.message log = rstrip f4.
Proof.
  intros Hraw Hp.
  destruct (parse_log_line_Some _ _ Hp) as (text & data & Hs & _).
  destruct (strip_spec line) as (ws1 & ws2 & Hline & Hws1 & Hws2).
  (* the stripped margins hold no tab: both splits count 3 of them *)
  pose proof (length_split TAB line) as Hn. rewrite Hraw in Hn.
  pose proof (length_split TAB (strip line)) as Hn'. rewrite Hs in Hn'.
  rewrite Hline, !occurrences_app in Hn. simpl in Hn, Hn'.
  assert (TAB ∉ ws1) as Ht1 by (apply occurrences_0; lia).
  assert (TAB ∉ ws2) as Ht2 by (apply occurrences_0; lia).
  pose proof (split_margins ws1 ws2 _ _ _ _ _ Ht1 Ht2 Hs) as Hsplit.
  rewrite <- Hline, Hraw in Hsplit. injection Hsplit as -> -> -> ->.
  split; [done|]. split; [done|].
  rewrite rstrip_app_spaces by done.
  (* the stripped line does not end with whitespace, a tab included *)
  pose proof (join_split TAB (strip line)) as Hj. rewrite Hs in Hj. simpl in Hj.
  destruct (LogEntry.message log) as [|c m] using rev_ind.
  - exfalso.
    assert (isspace TAB = false) as Hc; [|done].
    apply (strip_last line (text ++ TAB :: LogEntry.level log
                                 ++ TAB :: LogEntry.component log)).
    rewrite <- Hj. by repeat (rewrite <- app_assoc || rewrite <- app_comm_cons).
  - symmetry. apply rstrip_id.
    apply (strip_last line (text ++ TAB :: LogEntry.level log
                                 ++ TAB :: LogEntry.component log ++ TAB :: m)).
    rewrite <- Hj. by repeat (rewrite <- app_assoc || rewrite <- app_comm_cons).
Qed.

End ParserTheorems.

(** ** The scanner *)

Section ScannerFacts.
Context `{Dateutil} `{Hashlib}.

Lemma read_files_app names names' :
  read_files (names ++ names') =
    match (read_files names).2 with
    | None => ((read_files names).1 ++ (read_files names').1, (read_files names').2)
    | Some e => read_files names
    end.
Proof.
  induction names as [|[name f] names IH]; simpl.
  - by destruct (read_files names').
  - destruct (endswith name (py ".log")); [|apply IH].
    destruct (fault f); [done|]. rewrite IH.
    destruct (read_files names) as [logs [e|]]; simpl; [done|].
    destruct (read_files names'); simpl. by rewrite app_assoc.
Qed.

(** The scan ends normally exactly when no [.log] file has a fault. *)
Lemma read_files_readable names :
  (read_files names).2 = None <->
  Forall (fun nf : pystr * file =>
            endswith nf.1 (py ".log") = true -> fault nf.2 = None) names.
Proof.
  induction names as [|[name f] names IH]; simpl.
  - split; [constructor | done].
  - rewrite Forall_cons. simpl. destruct (endswith name (py ".log")).
    + destruct (fault f) as [e|]; simpl.
      * split; [done | intros [Hf _]; by specialize (Hf eq_refl)].
      * destruct (read_files names) as [logs fin]; simpl in *.
        rewrite IH. tauto.
    + rewrite IH. split; [by split | tauto].
Qed.

(** A scan that ends normally has yielded every parsed entry once. *)
Lemma read_files_complete names :
  (read_files names).2 = None ->
  (read_files names).1 = parsed_entries (Listing names).
Proof.
  induction names as [|[name f] names IH]; simpl; [done|].
  destruct (endswith name (py ".log")); [|done].
  destruct (fault f); [done|].
  destruct (read_files names) as [logs fin]; simpl in *.
  intros Hfin. by rewrite IH.
Qed.

Lemma read_logs_complete d :
  (read_logs d).2 = None -> (read_logs d).1 = parsed_entries d.
Proof. destruct d; simpl; [done | done | apply read_files_complete]. Qed.

(** The order of the listing only permutes what a complete scan yields. *)
Lemma read_files_listing_order names names' :
  names ≡ₚ names' -> (read_files names).2 = None ->
  (read_files names').2 = None /\ (read_files names).1 ≡ₚ (read_files names').1.
Proof.
  intros Hperm Hfin.
  assert ((read_files names').2 = None) as Hfin'.
  { apply read_files_readable. rewrite <- Hperm. by apply read_files_readable. }
  split; [done|]. rewrite !read_files_complete by done.
  unfold parsed_entries. by rewrite Hperm.
Qed.

End ScannerFacts.

(** ** The endpoints *)

Section EndpointFacts.
Context `{Dateutil} `{Hashlib}.

Lemma parse_bound_text s : s <> [] -> parse_bound (Some s) = Some <$> parser_parse s.
Proof. by destruct s. Qed.

Lemma differs_selects flt value : differs flt value = negb (selects flt value).
Proof.
  unfold differs, selects. destruct (truthy flt); simpl; [|done].
  destruct (decide (flt = Some value)) as [->|Hne].
  - by rewrite bool_decide_false, bool_decide_true by auto.
  - by rewrite bool_decide_true, bool_decide_false by congruence.
Qed.

Lemma before_comparable start_dt ts :
  comparable start_dt ts = true ->
  before start_dt ts = Return (negb (not_before start_dt ts)).
Proof.
  unfold comparable, before, not_before, DateTime.lt. destruct start_dt as [b|]; [|done].
  intros [c Hc]%bool_decide_eq_true. rewrite Hc. by destruct c.
Qed.

Lemma after_comparable end_dt ts :
  comparable end_dt ts = true ->
  after end_dt ts = Return (negb (not_after end_dt ts)).
Proof.
  unfold comparable, after, not_after, DateTime.gt. destruct end_dt as [b|]; [|done].
  intros [c Hc]%bool_decide_eq_true. rewrite Hc. by destruct c.
Qed.

(** On comparable timestamps the loop of [get_logs] is a filter. *)
Lemma filter_logs_included level component start_dt end_dt yielded :
  Forall (fun log => comparable start_dt (LogEntry.timestamp log)
                     && comparable end_dt (LogEntry.timestamp log) = true) yielded ->
  filter_logs level component start_dt end_dt yielded
  = Return (isoformatted <$> List.filter (included level component start_dt end_dt) yielded).
Proof.
  induction 1 as [|log rest [Hs He]%andb_prop _ IH]; simpl; [done|].
  rewrite !differs_selects, before_comparable, after_comparable by done.
  unfold included.
  destruct (selects level _); simpl; [|done].
  destruct (selects component _); simpl; [|done].
  destruct (not_before start_dt _); simpl; [|done].
  destruct (not_after end_dt _); simpl; [|done].
  by rewrite IH.
Qed.

(** No instant lies in a range whose start is after its end. *)
Lemma empty_range t1 t2 ts :
  DateTime.gt t1 t2 = Some true ->
  not_before (Some t1) ts && not_after (Some t2) ts = false.
Proof.
  unfold DateTime.gt, not_before, not_after, DateTime.compare.
  destruct (DateTime.utcoffset t1), (DateTime.utcoffset t2),
    (DateTime.utcoffset ts); try done;
    repeat match goal with
           | |- context [(?a ?= ?b)%Z] => destruct (Z.compare_spec a b)
           end; try done; lia.
Qed.

Lemma first_with_id_skip log_id skipped rest :
  Forall (fun log => LogEntry.id log <> log_id) skipped ->
  first_with_id log_id (skipped ++ rest) = first_with_id log_id rest.
Proof.
  induction 1 as [|log skipped Hne _ IH]; simpl; [done|].
  by rewrite bool_decide_false.
Qed.

(** *** Counters *)

Lemma lookup_bump key key' counts :
  bump key counts !! key' =
    if decide (key = key') then Some (default 0 (counts !! key) + 1)
    else counts !! key'.
Proof. unfold bump. apply lookup_insert. Qed.

Lemma sum_values_bump key counts : sum_values (bump key counts) = S (sum_values counts).
Proof.
  assert (forall (j1 j2 : pystr) (z1 z2 y : nat), z1 + (z2 + y) = z2 + (z1 + y)) as Hcomm
    by (intros; lia).
  unfold sum_values, bump. destruct (counts !! key) as [v|] eqn:Hk; simpl.
  - rewrite <- insert_delete_eq.
    rewrite map_fold_insert_L; [|by intros; apply Hcomm | apply lookup_delete_eq].
    rewrite (map_fold_delete_L _ _ key v counts); [lia | by intros; apply Hcomm | done].
  - rewrite map_fold_insert_L; [done | by intros; apply Hcomm | done].
Qed.

Lemma count_logs_snoc yielded log :
  count_logs (yielded ++ [log]) = count_log (count_logs yielded) log.
Proof. unfold count_logs. by rewrite foldl_app. Qed.

Lemma count_logs_total yielded : total (count_logs yielded) = length yielded.
Proof.
  induction yielded as [|log yielded IH] using rev_ind; [done|].
  rewrite count_logs_snoc, length_app. simpl. by rewrite IH.
Qed.

Lemma counted_snoc field key yielded log :
  counted field key (yielded ++ [log]) =
    if decide (field log = key)
    then Some (default 0 (counted field key yielded) + 1)
    else counted field key yielded.
Proof.
  unfold counted. rewrite filter_app, length_app, filter_cons, filter_nil.
  destruct (decide (field log = key)); simpl.
  - destruct (length _); simpl; f_equal; lia.
  - by rewrite Nat.add_0_r.
Qed.

Lemma count_logs_level yielded key :
  level_counts (count_logs yielded) !! key = counted LogEntry.level key yielded.
Proof.
  induction yielded as [|log yielded IH] using rev_ind; [done|].
  rewrite count_logs_snoc, counted_snoc. simpl. rewrite lookup_bump.
  destruct (decide (LogEntry.level log = key)) as [->|]; by rewrite IH.
Qed.

Lemma count_logs_component yielded key :
  component_counts (count_logs yielded) !! key = counted LogEntry.component key yielded.
Proof.
  induction yielded as [|log yielded IH] using rev_ind; [done|].
  rewrite count_logs_snoc, counted_snoc. simpl. rewrite lookup_bump.
  destruct (decide (LogEntry.component log = key)) as [->|]; by rewrite IH.
Qed.

Lemma count_logs_sums yielded :
  sum_values (level_counts (count_logs yielded)) = length yielded
  /\ sum_values (component_counts (count_logs yielded)) = length yielded.
Proof.
  induction yielded as [|log yielded [IHl IHc]] using rev_ind; [done|].
  rewrite count_logs_snoc, length_app. simpl.
  rewrite !sum_values_bump, IHl, IHc. lia.
Qed.

Lemma counted_permutation field key (l1 l2 : list LogEntry.t) :
  l1 ≡ₚ l2 -> counted field key l1 = counted field key l2.
Proof. intros Hperm. unfold counted. by rewrite Hperm. Qed.

Lemma count_logs_permutation (l1 l2 : list LogEntry.t) :
  l1 ≡ₚ l2 -> count_logs l1 = count_logs l2.
Proof.
  intros Hperm.
  assert (forall a b : Counters,
            total a = total b -> level_counts a = level_counts b ->
            component_counts a = component_counts b -> a = b) as Hext.
  { intros [] []; simpl; by intros -> -> ->. }
  apply Hext.
  - by rewrite !count_logs_total, Hperm.
  - apply map_eq. intros key. rewrite !count_logs_level. by apply counted_permutation.
  - apply map_eq. intros key. rewrite !count_logs_component. by apply counted_permutation.
Qed.

End EndpointFacts.

Section EndpointTheorems.
Context `{Dateutil} `{Hashlib}.

(** C1 (amended): when both bounds parse, the scan ends normally and
    Python can compare every timestamp with the bounds, [get_logs]
    returns, in scan order, exactly the entries for which (level absent
    or empty, or equal to the entry's level) and (component absent or
    empty, or equal) and (no start bound, or timestamp >= start) and
    (no end bound, or timestamp <= end), with their count; a start
    bound after the end bound gives the empty list, not an error. *)
Theorem get_logs_filtering level component start_time end_time d start_dt end_dt :
  parse_bound start_time = Some start_dt ->
  parse_bound end_time = Some end_dt ->
  (read_logs d).2 = None ->
  Forall (fun log => comparable start_dt (LogEntry.timestamp log)
                     && comparable end_dt (LogEntry.timestamp log) = true)
         (read_logs d).1 ->
  let kept := List.filter (included level component start_dt end_dt) (read_logs d).1 in
  get_logs level component start_time end_time d
    = Return {| count := length kept; logs := isoformatted <$> kept |}
  /\ (forall t1 t2, start_dt = Some t1 -> end_dt = Some t2 ->
                    DateTime.gt t1 t2 = Some true -> kept = []).
Proof.
  intros Hstart Hend Hfin Hcmp kept. split.
  - unfold get_logs. rewrite Hstart, Hend.
    destruct (read_logs d) as [yielded fin]; simpl in *. subst fin.
    rewrite filter_logs_included by done. subst kept. simpl. by rewrite length_fmap.
  - subst kept. intros t1 t2 -> -> Hgt. clear Hcmp Hfin.
    induction (read_logs d).1 as [|log rest IH]; simpl; [done|].
    unfold included at 1. rewrite <- andb_assoc, empty_range by done.
    by rewrite andb_false_r.
Qed.

(** C4 (amended): when a start or end bound is supplied as a non-empty
    text that the date parser rejects, [get_logs] raises
    [InvalidTimestamp] whatever the state of the log directory: nothing
    is read before the error. *)
Theorem get_logs_invalid_timestamp level component start_time end_time d text :
  text <> [] -> parser_parse text = None ->
  start_time = Some text \/ end_time = Some text ->
  get_logs level component start_time end_time d = Raise InvalidTimestamp.
Proof.
  intros Hne Hrej Hgiven. unfold get_logs.
  assert (parse_bound (Some text) = None) as Hbound
    by (by rewrite parse_bound_text, Hrej).
  destruct Hgiven as [-> | ->].
  - by rewrite Hbound.
  - rewrite Hbound. by destruct (parse_bound start_time).
Qed.

(** C5: [get_log_by_id] returns the first entry, in scan order, whose id
    is the given one, with its timestamp as ISO-8601 text; when the scan
    ends normally without such an entry it raises [NotFound]. *)
Theorem get_log_by_id_scan log_id d yielded fin :
  read_logs d = (yielded, fin) ->
  (forall skipped log rest,
     yielded = skipped ++ log :: rest ->
     Forall (fun l => LogEntry.id l <> log_id) skipped ->
     LogEntry.id log = log_id ->
     get_log_by_id log_id d = Return (isoformatted log))
  /\ (Forall (fun l => LogEntry.id l <> log_id) yielded -> fin = None ->
      get_log_by_id log_id d = Raise NotFound).
Proof.
  intros Hscan. unfold get_log_by_id. rewrite Hscan. split.
  - intros skipped log rest -> Hskipped Hid.
    rewrite first_with_id_skip by done. simpl. by rewrite bool_decide_true.
  - intros Hnone ->.
    rewrite <- (app_nil_r yielded), first_with_id_skip by done. done.
Qed.

(** C6: when the scan ends normally, [get_log_stats] counts every parsed
    entry of every [.log] file once, without filtering: the total is
    their number, each level and each component that occurs is mapped
    to the number of entries carrying it, and the total is the sum of
    the level counters and also the sum of the component counters. *)
Theorem get_log_stats_totals d :
  (read_logs d).2 = None ->
  exists r,
    get_log_stats d = Return r
    /\ total_logs r = length (parsed_entries d)
    /\ (forall key, by_level r !! key = counted LogEntry.level key (parsed_entries d))
    /\ (forall key, by_component r !! key
                    = counted LogEntry.component key (parsed_entries d))
    /\ total_logs r = sum_values (by_level r)
    /\ total_logs r = sum_values (by_component r).
Proof.
  intros Hfin. pose proof (read_logs_complete d Hfin) as Hall.
  unfold get_log_stats. destruct (read_logs d) as [yielded fin]; simpl in *.
  subst fin yielded. eexists. split; [done|]. simpl.
  destruct (count_logs_sums (parsed_entries d)) as [Hl Hc].
  rewrite count_logs_total, Hl, Hc.
  split; [done|]. split; [apply count_logs_level|].
  split; [apply count_logs_component | done].
Qed.

(** C7 (amended): a [.log] file that cannot be opened or read ends the
    scan there.  The entries of the files listed before it and of the
    lines read from it are yielded, no later file is read, and the
    exception reaches the endpoint: [get_log_stats] raises it,
    [get_logs] raises (this very exception when no time bound is given),
    and [get_log_by_id] raises it unless an entry yielded before the
    failure has the id. *)
Theorem read_logs_fault_aborts listed name f rest e :
  (read_files listed).2 = None ->
  endswith name (py ".log") = true ->
  fault f = Some e ->
  let d := Listing (listed ++ (name, f) :: rest) in
  let delivered := (read_files listed).1 ++ omap parse_log_line (lines f) in
  read_logs d = (delivered, Some e)
  /\ get_log_stats d = Raise e
  /\ (forall level component start_time end_time,
        exists e', get_logs level component start_time end_time d = Raise e')
  /\ (forall level component, get_logs level component None None d = Raise e)
  /\ (forall log_id, first_with_id log_id delivered = None ->
                     get_log_by_id log_id d = Raise e).
Proof.
  intros Hlisted Hname Hfault d delivered.
  assert (read_logs d = (delivered, Some e)) as Hscan.
  { subst d delivered. simpl. rewrite read_files_app, Hlisted. simpl.
    by rewrite Hname, Hfault. }
  split; [done|]. split; [|split; [|split]].
  - unfold get_log_stats. by rewrite Hscan.
  - intros level component start_time end_time. unfold get_logs.
    destruct (parse_bound start_time); [|by eexists].
    destruct (parse_bound end_time); [|by eexists].
    rewrite Hscan. destruct (filter_logs _ _ _ _ _); by eexists.
  - intros level component. unfold get_logs, parse_bound. cbn [truthy].
    rewrite Hscan, filter_logs_included; [done|]. by apply Forall_true.
  - intros log_id Hnone. unfold get_log_by_id. by rewrite Hscan, Hnone.
Qed.

(** C9: an empty string given for [level], [component], [start_time] or
    [end_time] is the same as no value: it excludes no entry, imposes
    no bound and is not parsed, so it cannot raise [InvalidTimestamp]. *)
Theorem get_logs_empty_string_as_absent level component start_time end_time d :
  get_logs level component start_time end_time d
  = get_logs (without_empty level) (without_empty component)
             (without_empty start_time) (without_empty end_time) d.
Proof.
  assert (forall t, parse_bound (without_empty t) = parse_bound t) as Hb
    by (by intros [[|]|]).
  assert (forall t v, differs (without_empty t) v = differs t v) as Hd
    by (by intros [[|]|]).
  unfold get_logs. rewrite !Hb.
  destruct (parse_bound start_time) as [start_dt|]; [|done].
  destruct (parse_bound end_time) as [end_dt|]; [|done].
  destruct (read_logs d) as [yielded fin].
  replace (filter_logs (without_empty level) (without_empty component)
             start_dt end_dt yielded)
    with (filter_logs level component start_dt end_dt yielded); [done|].
  induction yielded as [|log yielded IH]; simpl; [done|].
  by rewrite !Hd, IH.
Qed.

(** C10: two scans that end normally and yield the same entries in a
    different order give the same statistics: total, counters by level
    and counters by component. *)
Theorem get_log_stats_permutation d1 d2 :
  (read_logs d1).2 = None -> (read_logs d2).2 = None ->
  (read_logs d1).1 ≡ₚ (read_logs d2).1 ->
  get_log_stats d1 = get_log_stats d2.
Proof.
  unfold get_log_stats.
  destruct (read_logs d1) as [l1 fin1], (read_logs d2) as [l2 fin2]; simpl.
  intros -> -> Hperm. by rewrite (count_logs_permutation l1 l2).
Qed.

End EndpointTheorems.

(** ** The program on the sample data

    The runs below use the reference implementations [Iso8601] and
    [Sha1] of the two libraries. *)

Section Runs.
Import Samples.
#[local] Existing Instance Iso8601.dateutil.
#[local] Existing Instance Sha1.hashlib.

Example sha1_abc :
  sha1_hexdigest (Z.to_N <$> [0x61; 0x62; 0x63]%Z)
  = py "a9993e364706816aba3e25717850c26c9cd0d89d".
Proof. by vm_compute. Qed.

Example parse_line_error : parse_log_line line_error = Some entry_error.
Proof. by vm_compute. Qed.

(** The example of the spec: [a.log] with one good and one malformed line. *)
Example stats_dir_a :
  get_log_stats dir_a
  = Return {| total_logs := 1;
              by_level := {[ py "ERROR" := 1 ]};
              by_component := {[ py "auth" := 1 ]} |}.
Proof. by vm_compute. Qed.

Example read_logs_missing : read_logs Missing = ([], None).
Proof. done. Qed.

(** A naive timestamp in the log against an aware bound: [TypeError]. *)
Example get_logs_mixed_awareness :
  get_logs None None (Some (py "2024-01-01T09:00:00Z")) None dir_a = Raise TypeError.
Proof. by vm_compute. Qed.

(** C1, as stated, fails: with [level] given as the empty string the
    entry of level ["ERROR"] is returned, although the level filter is
    not absent and differs from the level of the entry. *)
Lemma get_logs_empty_level_keeps_all :
  read_logs dir_a = ([entry_error], None)
  /\ spec_included (Some []) None None None entry_error = false
  /\ get_logs (Some []) None None None dir_a
     = Return {| count := 1; logs := [view_error] |}.
Proof. by vm_compute. Qed.

(** A level filter and a one-day range over the two sample files. *)
Lemma get_logs_filtering_witness :
  get_logs (Some (py "ERROR")) None
           (Some (py "2024-01-01T00:00:00")) (Some (py "2024-01-01T23:59:59")) dir_ab
  = Return {| count := 1; logs := [view_error] |}.
Proof.
  assert (read_logs dir_ab = ([entry_error; entry_info], None)) as Hscan
    by (by vm_compute).
  edestruct (get_logs_filtering (Some (py "ERROR")) None
               (Some (py "2024-01-01T00:00:00")) (Some (py "2024-01-01T23:59:59"))
               dir_ab) as [Hr _].
  - by vm_compute.
  - by vm_compute.
  - by rewrite Hscan.
  - rewrite Hscan. repeat constructor; by vm_compute.
  - rewrite Hr, Hscan. by vm_compute.
Defined.

(** C2, as stated, fails: the raw line splits on the tab character into
    5 parts, the last one the line feed, and is parsed all the same,
    because the split is made after the trailing tab is stripped. *)
Lemma parse_log_line_trailing_tab :
  length (split TAB line_trailing_tab) = 5
  /\ parse_log_line line_trailing_tab = Some entry_trailing_tab.
Proof. by vm_compute. Qed.

(** A line of two fields is rejected. *)
Lemma parse_log_line_field_count_witness :
  length (split TAB (strip line_bad)) = 2 /\ parse_log_line line_bad = None.
Proof.
  split; [by vm_compute|].
  apply parse_log_line_field_count. vm_compute. lia.
Defined.

(** Two lines with the same stripped fields and different trailing
    whitespace: SHA-1 gives them different ids. *)
Lemma parse_log_line_id_witness :
  parse_log_line line_error = Some entry_error
  /\ parse_log_line line_padded = Some entry_padded
  /\ LogEntry.id entry_error <> LogEntry.id entry_padded.
Proof.
  assert (parse_log_line line_error = Some entry_error) as Hp by (by vm_compute).
  assert (parse_log_line line_padded = Some entry_padded) as Hp' by (by vm_compute).
  split; [done|]. split; [done|].
  apply (parse_log_line_id _ _ _ _ Hp Hp').
  - by vm_compute.
  - intros data data' Hd Hd' Hcollide.
    vm_compute in Hd, Hd'. injection Hd as <-. injection Hd' as <-.
    vm_compute in Hcollide. discriminate Hcollide.
Defined.

(** C4, as stated, fails: the parser rejects the empty string, yet a
    start bound given as the empty string raises nothing. *)
Lemma get_logs_empty_bound_accepted :
  parser_parse [] = None
  /\ get_logs None None (Some []) None dir_a
     = Return {| count := 1; logs := [view_error] |}.
Proof. by vm_compute. Qed.

(** A rejected end bound is reported even when the directory cannot be
    listed. *)
Lemma get_logs_invalid_timestamp_witness :
  parser_parse (py "not-a-date") = None
  /\ get_logs None None None (Some (py "not-a-date")) Unlistable
     = Raise InvalidTimestamp.
Proof.
  split; [by vm_compute|].
  apply (get_logs_invalid_timestamp _ _ _ _ _ (py "not-a-date")).
  - by vm_compute.
  - by vm_compute.
  - by right.
Defined.

(** The second entry of the scan is found by its id; an unknown id is not. *)
Lemma get_log_by_id_scan_witness :
  get_log_by_id (LogEntry.id entry_info) dir_ab = Return view_info
  /\ get_log_by_id (py "0000") dir_ab = Raise NotFound.
Proof.
  assert (read_logs dir_ab = ([entry_error; entry_info], None)) as Hscan
    by (by vm_compute).
  split.
  - destruct (get_log_by_id_scan (LogEntry.id entry_info) _ _ _ Hscan) as [Hfound _].
    rewrite (Hfound [entry_error] entry_info []); [by vm_compute | done | | done].
    repeat constructor. by vm_compute.
  - destruct (get_log_by_id_scan (py "0000") _ _ _ Hscan) as [_ Hnone].
    apply Hnone; [|done]. repeat constructor; by vm_compute.
Defined.

(** The statistics of the two sample files. *)
Lemma get_log_stats_totals_witness :
  exists r,
    get_log_stats dir_ab = Return r
    /\ total_logs r = length (parsed_entries dir_ab)
    /\ (forall key, by_level r !! key = counted LogEntry.level key (parsed_entries dir_ab))
    /\ (forall key, by_component r !! key
                    = counted LogEntry.component key (parsed_entries dir_ab))
    /\ total_logs r = sum_values (by_level r)
    /\ total_logs r = sum_values (by_component r).
Proof. apply get_log_stats_totals. by vm_compute. Defined.

(** C7, as stated, fails: with an unreadable [.log] file listed before
    a readable one, every endpoint raises the error of the file, and the
    entry of the readable file is never aggregated. *)
Lemma unreadable_file_fails_query :
  parse_log_line line_info = Some entry_info
  /\ get_log_stats dir_locked = Raise OSError
  /\ get_logs None None None None dir_locked = Raise OSError
  /\ get_log_by_id (LogEntry.id entry_info) dir_locked = Raise OSError.
Proof. by vm_compute. Qed.

(** An unreadable file between two readable ones: only the first is read. *)
Lemma read_logs_fault_aborts_witness :
  let d := Listing ([(py "a.log", a_log)] ++ (py "locked.log", locked_log)
                     :: [(py "b.log", b_log)]) in
  read_logs d = ([entry_error], Some OSError)
  /\ get_log_stats d = Raise OSError.
Proof.
  intros d.
  destruct (read_logs_fault_aborts [(py "a.log", a_log)] (py "locked.log") locked_log
              [(py "b.log", b_log)] OSError) as (Hscan & Hstats & _).
  - by vm_compute.
  - by vm_compute.
  - done.
  - split; [|exact Hstats]. subst d. rewrite Hscan. by vm_compute.
Defined.

(** C8, as stated, fails: the fourth field of the line ends with two
    spaces and the line feed, which the message of the entry has lost. *)
Lemma parse_log_line_message_trimmed :
  split TAB line_padded
  = [py "2024-01-01T10:00:00"; py "ERROR"; py "auth"; py "login failed  " ++ [LF]]
  /\ parse_log_line line_padded = Some entry_padded
  /\ LogEntry.message entry_padded = py "login failed".
Proof. by vm_compute. Qed.

(** The fields of the padded sample line. *)
Lemma parse_log_line_fields_witness :
  LogEntry.level entry_padded = py "ERROR"
  /\ LogEntry.component entry_padded = py "auth"
  /\ LogEntry.message entry_padded = rstrip (py "login failed  " ++ [LF]).
Proof.
  apply (parse_log_line_fields line_padded (py "2024-01-01T10:00:00")).
  - by vm_compute.
  - by vm_compute.
Defined.

(** The two sample files listed in either order. *)
Lemma get_log_stats_permutation_witness : get_log_stats dir_ab = get_log_stats dir_ba.
Proof.
  apply get_log_stats_permutation.
  - by vm_compute.
  - by vm_compute.
  - vm_compute. apply perm_swap.
Defined.

End Runs.

(** * Further properties *)

(** ** Stripping and encoding *)

Module StripFacts.
Import PyStrFacts.
Local Arguments Utf8.encode_char : simpl never.

Lemma lstrip_spaces ws : spaces ws -> lstrip ws = [].
Proof. induction 1 as [|c ws Hc _ IH]; simpl; [done|]. by rewrite Hc. Qed.

Lemma spaces_app ws ws' : spaces ws -> spaces ws' -> spaces (ws ++ ws').
Proof. unfold spaces. rewrite Forall_app. tauto. Qed.

(** Whitespace after a string does not survive [strip]. *)
Lemma strip_app_spaces s ws : spaces ws -> strip (s ++ ws) = strip s.
Proof.
  intros Hws. unfold strip.
  destruct (lstrip_spec s) as (ws1 & Hs & Hws1).
  destruct (lstrip s) as [|c r] eqn:Hl.
  - rewrite app_nil_r in Hs. subst s.
    by rewrite lstrip_spaces by (by apply spaces_app).
  - pose proof (lstrip_head _ _ _ Hl) as Hc.
    rewrite Hs at 1. rewrite <- app_assoc, lstrip_spaces_app by done.
    rewrite <- app_comm_cons, lstrip_id by done.
    rewrite app_comm_cons. by apply rstrip_app_spaces.
Qed.

Lemma strip_margins ws1 s ws2 :
  spaces ws1 -> spaces ws2 -> strip (ws1 ++ s ++ ws2) = strip s.
Proof.
  intros H1 H2. rewrite app_assoc, strip_app_spaces by done.
  unfold strip. by rewrite lstrip_spaces_app.
Qed.

Lemma occurrences_strip c s : occurrences c (strip s) <= occurrences c s.
Proof.
  destruct (strip_spec s) as (ws1 & ws2 & Hs & _).
  rewrite Hs at 2. rewrite !occurrences_app. lia.
Qed.

Lemma encode_app s t :
  Utf8.encode (s ++ t)
  = a ← Utf8.encode s; b ← Utf8.encode t; Some (a ++ b).
Proof.
  induction s as [|c s IH]; simpl.
  - by destruct (Utf8.encode t).
  - destruct (Utf8.encode_char c) as [bc|]; simpl; [|done]. rewrite IH.
    destruct (Utf8.encode s) as [a|]; simpl; [|done].
    destruct (Utf8.encode t) as [b|]; simpl; [|done]. by rewrite app_assoc.
Qed.

(** Whitespace is always encodable: no whitespace is a surrogate. *)
Lemma encode_spaces ws : spaces ws -> is_Some (Utf8.encode ws).
Proof.
  induction 1 as [|c ws Hc _ [b Hb]]; cbn [Utf8.encode]; [by eexists|].
  assert (c <= 0x3000)%N as Hle.
  { unfold isspace in Hc.
    rewrite !orb_true_iff, !andb_true_iff, !N.leb_le, !N.eqb_eq in Hc. lia. }
  assert (is_Some (Utf8.encode_char c)) as [bc Hbc].
  { unfold Utf8.encode_char.
    repeat match goal with
           | |- context [(?a <? ?b)%N] => destruct (N.ltb_spec a b)
           | |- context [(?a <=? ?b)%N] => destruct (N.leb_spec a b)
           end; cbn [andb]; first [by eexists | lia]. }
  rewrite Hbc, Hb. by eexists.
Qed.

(** A lone surrogate cannot be encoded, wherever it stands. *)
Lemma encode_surrogate s c :
  c ∈ s -> (0xD800 <= c <= 0xDFFF)%N -> Utf8.encode s = None.
Proof.
  intros Hin Hc.
  assert (Utf8.encode_char c = None) as Hnone.
  { unfold Utf8.encode_char.
    repeat match goal with
           | |- context [(?a <? ?b)%N] => destruct (N.ltb_spec a b)
           | |- context [(?a <=? ?b)%N] => destruct (N.leb_spec a b)
           end; cbn [andb]; first [done | lia]. }
  induction Hin as [c s|c x s _ IH]; cbn [Utf8.encode].
  - by rewrite Hnone.
  - destruct (Utf8.encode_char x); simpl; [|done]. by rewrite IH.
Qed.

End StripFacts.

Section ParserCoverage.
Context `{Dateutil} `{Hashlib}.
Import PyStrFacts StripFacts.
Local Arguments Utf8.encode_char : simpl never.

(** X1: the fields of a parsed entry never hold a tab, and its message
    is not empty and does not end with whitespace. *)
Theorem parse_log_line_entry_shape line log :
  parse_log_line line = Some log ->
  (TAB ∉ LogEntry.level log) /\ (TAB ∉ LogEntry.component log)
  /\ (TAB ∉ LogEntry.message log)
  /\ LogEntry.message log <> []
  /\ rstrip (LogEntry.message log) = LogEntry.message log.
Proof.
  intros Hp. destruct (parse_log_line_Some _ _ Hp) as (text & data & Hs & _).
  pose proof (split_parts_no_sep TAB (strip line)) as Hall. rewrite Hs in Hall.
  apply Forall_cons in Hall as [_ Hall]. apply Forall_cons in Hall as [Hlv Hall].
  apply Forall_cons in Hall as [Hco Hall]. apply Forall_cons in Hall as [Hmsg _].
  split; [done|]. split; [done|]. split; [done|].
  pose proof (join_split TAB (strip line)) as Hj. rewrite Hs in Hj. simpl in Hj.
  clear Hs Hmsg Hp.
  destruct (LogEntry.message log) as [|c m _] using rev_ind.
  - exfalso. assert (isspace TAB = false) as Hc; [|done].
    apply (strip_last line (text ++ TAB :: LogEntry.level log
                                 ++ TAB :: LogEntry.component log)).
    rewrite <- Hj. by repeat (rewrite <- app_assoc || rewrite <- app_comm_cons).
  - split; [by destruct m|]. apply rstrip_id.
    apply (strip_last line (text ++ TAB :: LogEntry.level log
                                 ++ TAB :: LogEntry.component log ++ TAB :: m)).
    rewrite <- Hj. by repeat (rewrite <- app_assoc || rewrite <- app_comm_cons).
Qed.

(** X2: a line of 4 tab-separated fields whose last field is blank
    (empty or whitespace only) is rejected, like a malformed line. *)
Theorem parse_log_line_blank_message line f1 f2 f3 f4 :
  split TAB line = [f1; f2; f3; f4] -> spaces f4 ->
  parse_log_line line = None.
Proof.
  intros Hraw Hblank.
  destruct (parse_log_line line) as [log|] eqn:Hp; [exfalso|done].
  destruct (parse_log_line_Some _ _ Hp) as (text & data & Hs & _).
  pose proof (split_parts_no_sep TAB line) as Hall. rewrite Hraw in Hall.
  apply Forall_cons in Hall as [H1 Hall]. apply Forall_cons in Hall as [H2 Hall].
  apply Forall_cons in Hall as [H3 _].
  pose proof (join_split TAB line) as Hj. rewrite Hraw in Hj. simpl in Hj.
  assert (line = (f1 ++ TAB :: f2 ++ TAB :: f3) ++ TAB :: f4) as Hline.
  { rewrite <- Hj. by repeat (rewrite <- app_assoc || rewrite <- app_comm_cons). }
  assert (strip line = strip (f1 ++ TAB :: f2 ++ TAB :: f3)) as Hstrip.
  { rewrite Hline at 1. apply strip_app_spaces. by constructor. }
  pose proof (length_split TAB (strip line)) as Hn. rewrite Hs in Hn.
  pose proof (occurrences_strip TAB (f1 ++ TAB :: f2 ++ TAB :: f3)) as Hle.
  pose proof (length_split TAB (join TAB [f1; f2; f3])) as Hn3.
  rewrite (split_join TAB [f1; f2; f3]) in Hn3 by (by repeat constructor).
  change (join TAB [f1; f2; f3]) with (f1 ++ TAB :: f2 ++ TAB :: f3) in Hn3.
  rewrite Hstrip in Hn. simpl in Hn, Hn3. lia.
Qed.

(** X3: whitespace added before and after a line that parses (spaces, a
    carriage return before the line feed) changes none of the timestamp,
    level, component and message of its entry; only the id, which is
    computed from the raw line, can change. *)
Theorem parse_log_line_margins ws1 ws2 line log :
  spaces ws1 -> spaces ws2 ->
  parse_log_line line = Some log ->
  exists log',
    parse_log_line (ws1 ++ line ++ ws2) = Some log'
    /\ LogEntry.timestamp log' = LogEntry.timestamp log
    /\ LogEntry.level log' = LogEntry.level log
    /\ LogEntry.component log' = LogEntry.component log
    /\ LogEntry.message log' = LogEntry.message log.
Proof.
  intros H1 H2 Hp.
  destruct (parse_log_line_Some _ _ Hp) as (text & data & Hs & Hd & _ & Hts).
  destruct (encode_spaces ws1 H1) as [b1 Hb1].
  destruct (encode_spaces ws2 H2) as [b2 Hb2].
  unfold parse_log_line, generate_log_id.
  rewrite strip_margins, Hs by done.
  rewrite !encode_app, Hb1, Hd, Hb2. simpl. rewrite Hts. simpl.
  by eexists.
Qed.

(** X14: a line that holds a lone surrogate, which UTF-8 cannot encode,
    is rejected like a malformed line: the error of [encode] in
    [generate_log_id] does not leave [parse_log_line]. *)
Theorem parse_log_line_surrogate line c :
  c ∈ line -> (0xD800 <= c <= 0xDFFF)%N -> parse_log_line line = None.
Proof.
  intros Hin Hc. unfold parse_log_line, generate_log_id.
  rewrite (encode_surrogate line c) by done.
  by destruct (split TAB (strip line)) as [|? [|? [|? [|? [|? ?]]]]].
Qed.

End ParserCoverage.

(** ** The scanner and the endpoints, further *)

Section CoverageFacts.
Context `{Dateutil} `{Hashlib}.

Lemma before_outcome start_dt ts :
  before start_dt ts =
    if comparable start_dt ts then Return (negb (not_before start_dt ts))
    else Raise TypeError.
Proof.
  unfold comparable, before, not_before, DateTime.lt. destruct start_dt as [b|]; [|done].
  destruct (DateTime.compare ts b) as [c|].
  - rewrite bool_decide_true by (by eexists). by destruct c.
  - by rewrite bool_decide_false by apply is_Some_None.
Qed.

Lemma after_outcome end_dt ts :
  after end_dt ts =
    if comparable end_dt ts then Return (negb (not_after end_dt ts))
    else Raise TypeError.
Proof.
  unfold comparable, after, not_after, DateTime.gt. destruct end_dt as [b|]; [|done].
  destruct (DateTime.compare ts b) as [c|].
  - rewrite bool_decide_true by (by eexists). by destruct c.
  - by rewrite bool_decide_false by apply is_Some_None.
Qed.

(** The loop of [get_logs], whatever the timestamps. *)
Lemma filter_logs_outcome level component start_dt end_dt yielded :
  filter_logs level component start_dt end_dt yielded =
    if existsb (unordered level component start_dt end_dt) yielded
    then Raise TypeError
    else Return (isoformatted
                   <$> List.filter (included level component start_dt end_dt) yielded).
Proof.
  induction yielded as [|log rest IH]; simpl; [done|].
  rewrite !differs_selects, before_outcome, after_outcome.
  unfold unordered at 1, included at 1.
  destruct (selects level _); simpl; [|done].
  destruct (selects component _); simpl; [|done].
  destruct (comparable start_dt _); simpl; [|done].
  destruct (not_before start_dt _); simpl; [|done].
  destruct (comparable end_dt _); simpl; [|done].
  destruct (not_after end_dt _); simpl; [|done].
  rewrite IH. by destruct (existsb _ rest).
Qed.

Lemma list_filter_sublist {A} (f : A -> bool) (l : list A) :
  List.filter f l `sublist_of` l.
Proof.
  induction l as [|x l IH]; simpl; [constructor|].
  destruct (f x); by constructor.
Qed.

Lemma list_filter_permutation {A} (f : A -> bool) (l l' : list A) :
  l ≡ₚ l' -> List.filter f l ≡ₚ List.filter f l'.
Proof.
  induction 1 as [|x l l' _ IH|x y l|l l' l'' _ IH1 _ IH2]; simpl.
  - done.
  - destruct (f x); by rewrite IH.
  - destruct (f x), (f y); try done. apply perm_swap.
  - by rewrite IH1.
Qed.

Lemma existsb_permutation {A} (f : A -> bool) (l l' : list A) :
  l ≡ₚ l' -> existsb f l = existsb f l'.
Proof.
  induction 1 as [|x l l' _ IH|x y l|l l' l'' _ IH1 _ IH2]; simpl.
  - done.
  - by rewrite IH.
  - by destruct (f x), (f y).
  - by rewrite IH1.
Qed.

Lemma first_with_id_Some log_id yielded log :
  first_with_id log_id yielded = Some log ->
  exists skipped rest,
    yielded = skipped ++ log :: rest
    /\ Forall (fun l => LogEntry.id l <> log_id) skipped
    /\ LogEntry.id log = log_id.
Proof.
  induction yielded as [|x yielded IH]; simpl; [done|].
  destruct (decide (LogEntry.id x = log_id)) as [Hx|Hx].
  - rewrite bool_decide_true by done. intros [= <-].
    exists [], yielded. by repeat split.
  - rewrite bool_decide_false by done. intros Hf.
    destruct (IH Hf) as (skipped & rest & -> & Hs & Hid).
    exists (x :: skipped), rest. split; [done|]. split; [by constructor | done].
Qed.

Lemma first_with_id_elem log yielded :
  log ∈ yielded ->
  exists log', first_with_id (LogEntry.id log) yielded = Some log'
               /\ LogEntry.id log' = LogEntry.id log.
Proof.
  induction 1 as [log yielded|log x yielded _ IH]; simpl.
  - rewrite bool_decide_true by done. by eexists.
  - destruct (decide (LogEntry.id x = LogEntry.id log)) as [Hx|Hx].
    + rewrite bool_decide_true by done. by eexists.
    + by rewrite bool_decide_false by done.
Qed.

Lemma included_level_only key log :
  key <> [] ->
  included (Some key) None None None log = bool_decide (LogEntry.level log = key).
Proof.
  intros Hkey. unfold included, selects. destruct key as [|c key]; [done|]. simpl.
  rewrite !andb_true_r. apply bool_decide_ext. split; congruence.
Qed.

Lemma included_component_only key log :
  key <> [] ->
  included None (Some key) None None log = bool_decide (LogEntry.component log = key).
Proof.
  intros Hkey. unfold included, selects. destruct key as [|c key]; [done|]. simpl.
  rewrite !andb_true_r. apply bool_decide_ext. split; congruence.
Qed.

Lemma length_list_filter_decide (P : LogEntry.t -> Prop) `{forall x, Decision (P x)}
    (f : LogEntry.t -> bool) (l : list LogEntry.t) :
  (forall x, f x = bool_decide (P x)) ->
  length (List.filter f l) = length (filter P l).
Proof.
  intros Hf. induction l as [|x l IH]; simpl; [done|].
  rewrite filter_cons, Hf. destruct (decide (P x)).
  - rewrite bool_decide_true by done. simpl. by rewrite IH.
  - by rewrite bool_decide_false by done.
Qed.

Lemma counted_default field key (l : list LogEntry.t) :
  default 0 (counted field key l) = length (filter (fun log => field log = key) l).
Proof. unfold counted. by destruct (length _). Qed.

Lemma list_filter_all {A} (f : A -> bool) (l : list A) :
  (forall x, f x = true) -> List.filter f l = l.
Proof. intros Hf. induction l as [|x l IH]; simpl; [done|]. by rewrite Hf, IH. Qed.

End CoverageFacts.

Section Coverage.
Context `{Dateutil} `{Hashlib}.

(** X4: the scanner opens only the names that end in [.log]: removing
    every other name from the listing, whatever it holds and even if it
    cannot be read, leaves the scan as it is. *)
Theorem read_logs_log_files_only names :
  read_logs (Listing names) = read_logs (Listing (List.filter is_log names)).
Proof.
  simpl. induction names as [|[name f] names IH]; simpl; [done|].
  unfold is_log at 1. simpl. destruct (endswith name (py ".log")) eqn:Hname; [|done].
  simpl. rewrite Hname. destruct (fault f); [done|]. by rewrite IH.
Qed.

(** X5: whatever ends the scan, what it has yielded is a prefix of the
    parsed entries of the [.log] files in listing and line order: a
    failure truncates the sequence and never reorders it or adds to it. *)
Theorem read_logs_prefix d : (read_logs d).1 `prefix_of` parsed_entries d.
Proof.
  destruct d as [| |names]; simpl; [done | done |].
  induction names as [|[name f] names IH]; simpl; [done|].
  destruct (endswith name (py ".log")); [|done].
  destruct (fault f); simpl.
  - by apply prefix_app_r.
  - destruct (read_files names) as [logs fin]; simpl in *. by apply prefix_app.
Qed.

(** X6: a line that does not parse is skipped in silence: taking it out
    of its file changes nothing in the scan, wherever it stands. *)
Theorem read_logs_rejected_line listed name above rejected below flt rest :
  parse_log_line rejected = None ->
  read_logs (Listing (listed ++ (name, {| lines := above ++ rejected :: below;
                                          fault := flt |}) :: rest))
  = read_logs (Listing (listed ++ (name, {| lines := above ++ below;
                                            fault := flt |}) :: rest)).
Proof.
  intros Hrej. simpl. rewrite !read_files_app.
  destruct (read_files listed).2; [done|]. simpl.
  rewrite !omap_app. simpl. by rewrite Hrej.
Qed.

(** X7: without a log directory, or without a name ending in [.log] in
    it, the statistics are zero with empty counters, a lookup by id
    raises [NotFound] and a listing whose bounds parse is empty. *)
Theorem nothing_to_scan_outcomes d :
  nothing_to_scan d ->
  get_log_stats d = Return {| total_logs := 0; by_level := ∅; by_component := ∅ |}
  /\ (forall log_id, get_log_by_id log_id d = Raise NotFound)
  /\ (forall level component start_time end_time start_dt end_dt,
        parse_bound start_time = Some start_dt ->
        parse_bound end_time = Some end_dt ->
        get_logs level component start_time end_time d
        = Return {| count := 0; logs := [] |}).
Proof.
  intros Hnone.
  assert (read_logs d = ([], None)) as Hscan.
  { destruct d as [| |names]; simpl in *; [done | done |].
    induction Hnone as [|[name f] names Hname _ IH]; simpl; [done|].
    unfold is_log in Hname. simpl in Hname. by rewrite Hname. }
  unfold get_log_stats, get_log_by_id, get_logs. rewrite Hscan.
  split; [done|]. split; [done|].
  intros level component start_time end_time start_dt end_dt -> ->. done.
Qed.

(** X8: when both bounds parse, the outcome of [get_logs] is decided as
    follows.  If some yielded entry passes the level and component
    filters and has a timestamp that Python cannot order against a bound
    it is compared with, [TypeError] is raised, even if the scan fails
    later.  Otherwise the exception that ended the scan is raised, or
    the filtered entries are returned with their count. *)
Theorem get_logs_outcome level component start_time end_time d start_dt end_dt :
  parse_bound start_time = Some start_dt ->
  parse_bound end_time = Some end_dt ->
  get_logs level component start_time end_time d =
    if existsb (unordered level component start_dt end_dt) (read_logs d).1
    then Raise TypeError
    else match (read_logs d).2 with
         | Some e => Raise e
         | None =>
             let kept :=
               List.filter (included level component start_dt end_dt) (read_logs d).1 in
             Return {| count := length kept; logs := isoformatted <$> kept |}
         end.
Proof.
  intros Hstart Hend. unfold get_logs. rewrite Hstart, Hend.
  destruct (read_logs d) as [yielded fin]; simpl.
  rewrite filter_logs_outcome. destruct (existsb _ yielded); simpl; [done|].
  destruct fin; [done|]. by rewrite length_fmap.
Qed.

(** X9: whenever [get_logs] returns, the scan has ended normally, the
    count is the length of the list, the list holds yielded entries in
    scan order, and a non-empty level or component filter is met by
    every entry returned. *)
Theorem get_logs_sound level component start_time end_time d r :
  get_logs level component start_time end_time d = Return r ->
  (read_logs d).2 = None
  /\ count r = length (logs r)
  /\ logs r `sublist_of` (isoformatted <$> (read_logs d).1)
  /\ (truthy level = true ->
      Forall (fun v => Some (LogView.level v) = level) (logs r))
  /\ (truthy component = true ->
      Forall (fun v => Some (LogView.component v) = component) (logs r)).
Proof.
  unfold get_logs.
  destruct (parse_bound start_time) as [start_dt|]; [|done].
  destruct (parse_bound end_time) as [end_dt|]; [|done].
  destruct (read_logs d) as [yielded fin]; simpl.
  rewrite filter_logs_outcome. destruct (existsb _ yielded); simpl; [done|].
  destruct fin; [done|]. intros [= <-]. simpl.
  assert (Forall (fun log => included level component start_dt end_dt log = true)
            (List.filter (included level component start_dt end_dt) yielded)) as Hall.
  { apply Forall_forall. intros log Hin. apply list_elem_of_In, filter_In in Hin. tauto. }
  split; [done|]. split; [done|].
  split; [apply fmap_sublist, list_filter_sublist|].
  split; intros Hset; apply Forall_fmap; eapply Forall_impl; try exact Hall;
    intros log Hlog; unfold included, selects in Hlog; rewrite Hset in Hlog;
    simpl in Hlog; repeat (apply andb_prop in Hlog as [Hlog ?]).
  - by apply bool_decide_eq_true in Hlog.
  - by match goal with
       | Hc : bool_decide (component = _) = true |- _ => apply bool_decide_eq_true in Hc
       end.
Qed.

(** X10: the order in which the directory lists its files changes only
    the order of the entries [get_logs] returns: with the listing
    permuted it returns the same count and a permutation of the list. *)
Theorem get_logs_listing_order level component start_time end_time names names' r :
  names ≡ₚ names' ->
  get_logs level component start_time end_time (Listing names) = Return r ->
  exists r',
    get_logs level component start_time end_time (Listing names') = Return r'
    /\ count r' = count r /\ logs r' ≡ₚ logs r.
Proof.
  intros Hperm. unfold get_logs.
  destruct (parse_bound start_time) as [start_dt|]; [|done].
  destruct (parse_bound end_time) as [end_dt|]; [|done].
  pose proof (read_files_listing_order names names' Hperm) as Hord.
  simpl. destruct (read_files names) as [ys fin], (read_files names') as [ys' fin'];
    simpl in *.
  rewrite !filter_logs_outcome.
  destruct (existsb _ ys) eqn:Hex; simpl; [done|].
  destruct fin; [done|]. destruct (Hord eq_refl) as [-> Hys].
  rewrite <- (existsb_permutation _ ys ys' Hys), Hex. simpl.
  intros [= <-]. eexists. split; [done|]. simpl.
  pose proof (list_filter_permutation
                (included level component start_dt end_dt) ys ys' Hys) as Hk.
  split; [by rewrite !length_fmap, Hk | by rewrite Hk].
Qed.

(** X11: an entry [get_log_by_id] returns carries the requested id: it
    is the first yielded entry with that id, with its timestamp as
    ISO-8601 text. *)
Theorem get_log_by_id_sound log_id d v :
  get_log_by_id log_id d = Return v ->
  LogView.id v = log_id
  /\ exists skipped log rest,
       (read_logs d).1 = skipped ++ log :: rest
       /\ Forall (fun l => LogEntry.id l <> log_id) skipped
       /\ LogEntry.id log = log_id
       /\ v = isoformatted log.
Proof.
  unfold get_log_by_id. destruct (read_logs d) as [yielded fin]; simpl.
  destruct (first_with_id log_id yielded) as [log|] eqn:Hf.
  - intros [= <-].
    destruct (first_with_id_Some _ _ _ Hf) as (skipped & rest & -> & Hs & Hid).
    split; [done|]. by exists skipped, log, rest.
  - by destruct fin.
Qed.

(** X12: every entry that [get_logs] returns can be fetched by its id:
    [get_log_by_id] on that id returns an entry with the same id. *)
Theorem get_logs_entries_retrievable level component start_time end_time d r v :
  get_logs level component start_time end_time d = Return r ->
  v ∈ logs r ->
  exists v', get_log_by_id (LogView.id v) d = Return v'
             /\ LogView.id v' = LogView.id v.
Proof.
  unfold get_logs, get_log_by_id.
  destruct (parse_bound start_time) as [start_dt|]; [|done].
  destruct (parse_bound end_time) as [end_dt|]; [|done].
  destruct (read_logs d) as [yielded fin]; simpl.
  rewrite filter_logs_outcome. destruct (existsb _ yielded); simpl; [done|].
  destruct fin; [done|]. intros [= <-]. simpl.
  intros (log & -> & Hin)%list_elem_of_fmap.
  apply list_elem_of_In, filter_In in Hin as [Hin _]. apply list_elem_of_In in Hin.
  destruct (first_with_id_elem log yielded Hin) as (log' & Hf & Hid).
  simpl. rewrite Hf. by eexists.
Qed.

(** X13: when the scan ends normally the two endpoints agree: the count
    of an unfiltered listing is the total of the statistics, and the
    count of a listing filtered by a non-empty level (or component) alone
    is the counter of that level (or component), 0 when it has none. *)
Theorem get_logs_counts_match_stats d :
  (read_logs d).2 = None ->
  exists s,
    get_log_stats d = Return s
    /\ (exists r, get_logs None None None None d = Return r
                  /\ count r = total_logs s)
    /\ (forall key, key <> [] ->
          exists r, get_logs (Some key) None None None d = Return r
                    /\ count r = default 0 (by_level s !! key))
    /\ (forall key, key <> [] ->
          exists r, get_logs None (Some key) None None d = Return r
                    /\ count r = default 0 (by_component s !! key)).
Proof.
  intros Hfin. unfold get_log_stats, get_logs, parse_bound. cbn [truthy].
  destruct (read_logs d) as [yielded fin]; simpl in *. subst fin.
  eexists. split; [done|]. simpl.
  assert (forall level component,
            filter_logs level component None None yielded
            = Return (isoformatted <$> List.filter (included level component None None)
                                                   yielded)) as Hloop.
  { intros. apply filter_logs_included. by apply Forall_true. }
  split; [|split].
  - eexists. rewrite Hloop. simpl. split; [done|]. simpl.
    rewrite length_fmap, list_filter_all by done. by rewrite count_logs_total.
  - intros key Hkey. eexists. rewrite Hloop. simpl. split; [done|]. simpl.
    rewrite length_fmap, count_logs_level, counted_default.
    apply (length_list_filter_decide (fun log => LogEntry.level log = key)).
    intros log. by apply included_level_only.
  - intros key Hkey. eexists. rewrite Hloop. simpl. split; [done|]. simpl.
    rewrite length_fmap, count_logs_component, counted_default.
    apply (length_list_filter_decide (fun log => LogEntry.component log = key)).
    intros log. by apply included_component_only.
Qed.

End Coverage.

(** ** The further properties on the sample data *)

Section MoreRuns.
Import Samples MoreSamples.
#[local] Existing Instance Iso8601.dateutil.
#[local] Existing Instance Sha1.hashlib.

(** The message of the padded line. *)
Lemma parse_log_line_entry_shape_witness :
  parse_log_line line_padded = Some entry_padded
  /\ LogEntry.message entry_padded <> []
  /\ rstrip (LogEntry.message entry_padded) = LogEntry.message entry_padded.
Proof.
  assert (parse_log_line line_padded = Some entry_padded) as Hp by (by vm_compute).
  split; [done|].
  destruct (parse_log_line_entry_shape _ _ Hp) as (_ & _ & _ & Hne & Hstrip).
  by split.
Defined.

(** Four fields, two spaces for a message: rejected. *)
Lemma parse_log_line_blank_message_witness :
  length (split TAB line_blank_message) = 4
  /\ parse_log_line line_blank_message = None.
Proof.
  split; [by vm_compute|].
  apply (parse_log_line_blank_message _ (py "2024-01-01T10:00:00") (py "ERROR")
           (py "auth") (py "  " ++ [LF])).
  - by vm_compute.
  - repeat constructor.
Defined.

(** The sample line between two spaces and a carriage return: the same
    fields, another id. *)
Lemma parse_log_line_margins_witness :
  exists log',
    parse_log_line line_crlf = Some log'
    /\ LogEntry.timestamp log' = LogEntry.timestamp entry_error
    /\ LogEntry.level log' = LogEntry.level entry_error
    /\ LogEntry.component log' = LogEntry.component entry_error
    /\ LogEntry.message log' = LogEntry.message entry_error.
Proof.
  apply (parse_log_line_margins (py "  ") (py " " ++ [0x0D%N; LF]) line_error).
  - repeat constructor.
  - repeat constructor.
  - by vm_compute.
Defined.

(** The malformed lines of the noisy file leave no trace. *)
Lemma read_logs_rejected_line_witness :
  read_logs (Listing [(py "a.log", a_log_noisy)])
  = read_logs (Listing [(py "a.log", {| lines := [line_bad; line_error];
                                        fault := None |})]).
Proof.
  apply (read_logs_rejected_line [] (py "a.log") [line_bad; line_error] line_bad
           [] None []).
  by vm_compute.
Defined.

(** A directory of notes and backups. *)
Lemma nothing_to_scan_outcomes_witness :
  get_log_stats dir_no_logs
  = Return {| total_logs := 0; by_level := ∅; by_component := ∅ |}
  /\ get_log_by_id (LogEntry.id entry_error) dir_no_logs = Raise NotFound.
Proof.
  destruct (nothing_to_scan_outcomes dir_no_logs) as (Hstats & Hid & _).
  - repeat constructor.
  - split; [exact Hstats | apply Hid].
Defined.

(** A naive start bound over a naive and an aware entry: [TypeError],
    unless the level filter drops the aware entry first. *)
Lemma get_logs_outcome_witness :
  get_logs None None (Some (py "2024-01-01T00:00:00")) None dir_mixed
  = Raise TypeError
  /\ get_logs (Some (py "ERROR")) None (Some (py "2024-01-01T00:00:00")) None dir_mixed
     = Return {| count := 1; logs := [view_error] |}.
Proof.
  split.
  - eapply eq_trans; [eapply get_logs_outcome; by vm_compute | by vm_compute].
  - eapply eq_trans; [eapply get_logs_outcome; by vm_compute | by vm_compute].
Defined.

(** The component filter over the two sample files. *)
Lemma get_logs_sound_witness :
  get_logs None (Some (py "db")) None None dir_ab
  = Return {| count := 1; logs := [view_info] |}
  /\ Forall (fun v => Some (LogView.component v) = Some (py "db")) [view_info].
Proof.
  assert (get_logs None (Some (py "db")) None None dir_ab
          = Return {| count := 1; logs := [view_info] |}) as Hr by (by vm_compute).
  split; [done|].
  destruct (get_logs_sound _ _ _ _ _ _ Hr) as (_ & _ & _ & _ & Hco).
  by apply Hco.
Defined.

(** The two sample files listed in either order. *)
Lemma get_logs_listing_order_witness :
  exists r',
    get_logs None None None None (Listing [(py "b.log", b_log); (py "a.log", a_log)])
    = Return r'
    /\ count r' = 2 /\ logs r' ≡ₚ [view_error; view_info].
Proof.
  apply (get_logs_listing_order None None None None
           [(py "a.log", a_log); (py "b.log", b_log)]
           [(py "b.log", b_log); (py "a.log", a_log)]
           {| count := 2; logs := [view_error; view_info] |}).
  - apply perm_swap.
  - by vm_compute.
Defined.

(** A lookup in the two sample files. *)
Lemma get_log_by_id_sound_witness :
  get_log_by_id (LogEntry.id entry_info) dir_ab = Return view_info
  /\ LogView.id view_info = LogEntry.id entry_info.
Proof.
  assert (get_log_by_id (LogEntry.id entry_info) dir_ab = Return view_info) as Hr
    by (by vm_compute).
  split; [done|]. by destruct (get_log_by_id_sound _ _ _ Hr) as [Hid _].
Defined.

(** The second entry of the unfiltered listing, fetched by its id. *)
Lemma get_logs_entries_retrievable_witness :
  exists v', get_log_by_id (LogView.id view_info) dir_ab = Return v'
             /\ LogView.id v' = LogView.id view_info.
Proof.
  apply (get_logs_entries_retrievable None None None None dir_ab
           {| count := 2; logs := [view_error; view_info] |}).
  - by vm_compute.
  - apply list_elem_of_further, list_elem_of_here.
Defined.

(** The statistics of the two sample files against their listings. *)
Lemma get_logs_counts_match_stats_witness :
  exists s,
    get_log_stats dir_ab = Return s
    /\ (exists r, get_logs None None None None dir_ab = Return r
                  /\ count r = total_logs s)
    /\ (forall key, key <> [] ->
          exists r, get_logs (Some key) None None None dir_ab = Return r
                    /\ count r = default 0 (by_level s !! key))
    /\ (forall key, key <> [] ->
          exists r, get_logs None (Some key) None None dir_ab = Return r
                    /\ count r = default 0 (by_component s !! key)).
Proof. apply get_logs_counts_match_stats. by vm_compute. Defined.

(** The sample line after a lone surrogate. *)
Lemma parse_log_line_surrogate_witness :
  parse_log_line (0xD800%N :: line_error) = None.
Proof.
  apply (parse_log_line_surrogate _ 0xD800%N); [apply list_elem_of_here | lia].
Defined.

(** A read that fails in the first file: its first line was yielded. *)
Example read_logs_torn :
  read_logs dir_torn = ([entry_error], Some UnicodeDecodeError)
  /\ parsed_entries dir_torn = [entry_error; entry_info].
Proof. by vm_compute. Qed.

End MoreRuns.
